(** * vynk: room registry and broadcast relay

    A shallow embedding of [backend/main.py]: the process-wide registry
    [rooms : Dict[str, List[WebSocket]]] and the coroutine
    [websocket_endpoint], which joins a connection to a room, relays every
    JSON message it receives to the other members of that room, and removes
    the connection when [WebSocketDisconnect] is raised.

    Python values are modelled as follows.
    - A [WebSocket] object is compared by identity in the source
      ([client != ws], [list.remove]); it is modelled by a number naming
      the object.
    - [rooms] is a finite map from strings to lists of connections.
    - The value returned by [receive_json] is a JSON value; the handler only
      calls [.get] on it and hands it, untouched, to [send_json].
    - Exceptions are values of [exn]. A computation takes the state of the
      world to a returned value or a raised exception, together with the
      state reached: what was written before a [raise] stays written.
    - The outcome of each [await] is supplied by the environment: the list of
      outcomes of the successive [receive_json] calls and, for every
      [send_json] call (numbered in order), whether it completes or raises.
    - [print] raises [UnicodeEncodeError] on a line that standard output
      cannot encode, which is the case of a lone surrogate in the [type] or
      the [sender] of a message.
    - With several connections, the handlers take turns between two
      suspensions in [receive_json]: [step] runs a whole turn of the loop,
      and the broadcast of one message is not interleaved with the joins
      and leaves of other connections. The statements about the registry
      do not depend on this, since the registry is written only by
      stretches of code without an [await]; the statements about who is
      sent a message are for a broadcast during which no other connection
      joins or leaves the room, and say so. [live_fanout] is the loop of
      the broadcast on the live list, with such changes. *)

From Stdlib Require Import ZArith.
From stdpp Require Import base option list strings gmap fin_maps sorting.

Open Scope string_scope.
Open Scope list_scope.

(** ** Values *)

(** What [json.loads] produces. A float is carried as its IEEE-754 bit
    pattern; an object as its key/value pairs, one pair per key. A Python
    string is a sequence of code points, and [json.loads] can yield one with
    a lone surrogate (from an escape such as backslash-u-d800): a string is
    carried as the UTF-8 bytes of its code points, a surrogate as the three
    bytes its code point would take (ED, then A0 to BF, then 80 to BF),
    which occur in the bytes of no other string. *)
#[warnings="-register-all"]
Inductive json : Type :=
  | JNull
  | JBool (b : bool)
  | JInt (z : Z)
  | JFloat (bits : Z)
  | JStr (s : string)
  | JArr (items : list json)
  | JObj (fields : list (string * json)).

(** A connection object, by identity. *)
Definition WebSocket := nat.

(** The exceptions that can travel through [websocket_endpoint]. *)
Inductive exn : Type :=
  | WebSocketDisconnect
  | KeyError
  | ValueError
  | AttributeError
  | JSONDecodeError
  | RuntimeError
  | UnicodeEncodeError.

Global Instance exn_eq_dec : EqDecision exn.
Proof. solve_decision. Defined.

(** The lines written by [print]. The f-strings interpolate the room, the
    member count, and the values of the fields [type] and [sender]. *)
Inductive log_line : Type :=
  | LogConnected (room_id : string) (total : nat)
  | LogReceived (room_id : string) (message_type sender : json)
  | LogUnknown (room_id : string) (message_type : json)
  | LogDisconnected (room_id : string).

(** What the handler does to the outside: a line printed, or a
    [client.send_json(data)] that completed. *)
Inductive event : Type :=
  | Print (line : log_line)
  | Sent (client : WebSocket) (data : json).

(** ** The registry: [rooms], lines 9, 22-25 and 51-54 *)

Abbreviation Rooms := (gmap string (list WebSocket)).

(** [if room_id not in rooms: rooms[room_id] = []] then
    [rooms[room_id].append(ws)]. *)
Definition join (rooms : Rooms) (room_id : string) (ws : WebSocket) : Rooms :=
  let rooms1 :=
    if decide (rooms !! room_id = None) then <[room_id := []]> rooms
    else rooms in
  alter (λ members, members ++ [ws]) room_id rooms1.

(** [members.remove(ws)]: the list without the first occurrence of [ws], or
    nothing ([ValueError]) when [ws] does not occur. *)
Fixpoint list_remove (ws : WebSocket) (members : list WebSocket)
  : option (list WebSocket) :=
  match members with
  | [] => None
  | client :: rest =>
      if decide (client = ws) then Some rest
      else cons client <$> list_remove ws rest
  end.

(** [rooms[room_id].remove(ws)] then
    [if not rooms[room_id]: del rooms[room_id]].
    The subscript raises [KeyError] when the room has no entry and
    [list.remove] raises [ValueError] when [ws] is not in the list; it
    removes the first occurrence otherwise. *)
Definition leave (rooms : Rooms) (room_id : string) (ws : WebSocket)
  : exn + Rooms :=
  match rooms !! room_id with
  | None => inl KeyError
  | Some members =>
      match list_remove ws members with
      | None => inl ValueError
      | Some members' =>
          let rooms1 := <[room_id := members']> rooms in
          inr (if decide (members' = []) then delete room_id rooms1
               else rooms1)
      end
  end.

(** [len(rooms[room_id])], as printed after a join; 0 stands for a missing
    entry. *)
Definition member_count (rooms : Rooms) (room_id : string) : nat :=
  length (default [] (rooms !! room_id)).

(** [ws] is in the member list of some room. *)
Definition registered (rooms : Rooms) (ws : WebSocket) : Prop :=
  ∃ room_id members, rooms !! room_id = Some members ∧ ws ∈ members.

(** ** Classification: lines 34-43 *)

(** [d.get(key)] on a dict. *)
Fixpoint dict_get (key : string) (fields : list (string * json))
  : option json :=
  match fields with
  | [] => None
  | (k, v) :: rest => if decide (k = key) then Some v else dict_get key rest
  end.

(** [data.get(key, dflt)]: only a dict has [get]. *)
Definition get (data : json) (key : string) (dflt : json) : exn + json :=
  match data with
  | JObj fields => inr (default dflt (dict_get key fields))
  | _ => inl AttributeError
  end.

(** [v in [s1, s2, s3]] for a list of strings: [==] between a string and a
    value of another type is false. *)
Definition py_in (v : json) (l : list string) : bool :=
  match v with
  | JStr s => bool_decide (s ∈ l)
  | _ => false
  end.

Inductive Category : Type := content | signal | unknown.

(** The [if]/[elif]/[else] on [message_type]. *)
Definition classify (message_type : json) : Category :=
  if py_in message_type ["chat"; "image"; "file"] then content
  else if py_in message_type ["offer"; "answer"; "ice"] then signal
  else unknown.

(** ** What standard output can encode *)

(** Whether the bytes of a string hold a lone surrogate. *)
Fixpoint lone_surrogate (s : string) : bool :=
  match s with
  | String a rest =>
      match rest with
      | String b _ =>
          ((Ascii.N_of_ascii a =? 237)%N &&
           (160 <=? Ascii.N_of_ascii b)%N &&
           (Ascii.N_of_ascii b <=? 191)%N)
          || lone_surrogate rest
      | EmptyString => false
      end
  | EmptyString => false
  end.

(** Whether [str(v)], as an f-string interpolates it, can be encoded. *)
Definition encodable (v : json) : bool :=
  match v with
  | JStr s => negb (lone_surrogate s)
  | _ => true
  end.

(** Whether a line can be written. *)
Definition print_ok (line : log_line) : bool :=
  match line with
  | LogReceived _ message_type sender =>
      encodable message_type && encodable sender
  | LogUnknown _ message_type => encodable message_type
  | LogConnected _ _ | LogDisconnected _ => true
  end.

(** ** The world and the computations on it *)

(** The state a handler works on: the registry, what has been printed and
    sent so far (oldest first), and how many [send_json] calls were made. *)
Record World : Type := mkWorld {
  rooms : Rooms;
  out : list event;
  sends : nat
}.

Definition init_world : World := mkWorld ∅ [] 0.

(** A computation either returns a value or raises; either way it leaves a
    world behind. *)
Definition M (A : Type) : Type := World → (exn + A) * World.

Definition ret {A} (a : A) : M A := λ w, (inr a, w).
Definition raise {A} (e : exn) : M A := λ w, (inl e, w).
Definition bind {A B} (k : A → M B) (m : M A) : M B :=
  λ w, match m w with
       | (inr a, w') => k a w'
       | (inl e, w') => (inl e, w')
       end.

(** With these instances [x ← m; k] and [m;; k] sequence computations. *)
Global Instance M_ret : MRet M := @ret.
Global Instance M_bind : MBind M := @bind.

(** The environment of a handler: for the [n]-th call of [send_json]
    (counted from 0 over the life of the process), [None] when the call
    completes and [Some e] when it raises [e]. *)
Definition send_env : Type := nat → option exn.

(** Every send completes. *)
Definition all_sent : send_env := λ _, None.

Definition lift_sum {A} (r : exn + A) : M A :=
  match r with
  | inr a => ret a
  | inl e => raise e
  end.

(** [print(line)] encodes the text for standard output, UTF-8 with the
    default error handling, and raises [UnicodeEncodeError] on a lone
    surrogate. Such a code point can only come from a string of the message
    that the f-string interpolates as it is, the value of [type] or of
    [sender]; a value that is not a string is written through [repr], which
    escapes it, and the room comes from a URL path, which holds none. *)
Definition print (line : log_line) : M unit :=
  λ w, if print_ok line
       then (inr tt, mkWorld (rooms w) (out w ++ [Print line]) (sends w))
       else (inl UnicodeEncodeError, w).

(** [await client.send_json(data)]: the outcome of the send. The other
    handlers do not run during it: see [for_each_client]. *)
Definition send_json (env : send_env) (client : WebSocket) (data : json)
  : M unit :=
  λ w, match env (sends w) with
       | None =>
           (inr tt, mkWorld (rooms w) (out w ++ [Sent client data])
                            (S (sends w)))
       | Some e => (inl e, mkWorld (rooms w) (out w) (S (sends w)))
       end.

(** [await ws.receive_json()], given what the call comes back with: the
    parsed value, or the exception it raises ([WebSocketDisconnect] when the
    peer has closed, [JSONDecodeError] when the text is not JSON, ...). *)
Definition receive_json (r : exn + json) : M json :=
  match r with
  | inr data => ret data
  | inl e => raise e
  end.

(** [rooms[room_id]]. *)
Definition subscript (room_id : string) : M (list WebSocket) :=
  λ w, match rooms w !! room_id with
       | Some members => (inr members, w)
       | None => (inl KeyError, w)
       end.

(** ** [websocket_endpoint] *)

(** Lines 22-27: join the room and print the member count. *)
Definition on_connect (room_id : string) (ws : WebSocket) : M unit :=
  λ w, let rooms' := join (rooms w) room_id ws in
       print (LogConnected room_id (member_count rooms' room_id))
             (mkWorld rooms' (out w) (sends w)).

(** Lines 34-43: read [type], print according to its category. *)
Definition log_message (room_id : string) (data : json) : M unit :=
  message_type ← lift_sum (get data "type" JNull);
  match classify message_type with
  | content =>
      sender ← lift_sum (get data "sender" (JStr "Unknown"));
      print (LogReceived room_id message_type sender)
  | signal => ret tt
  | unknown => print (LogUnknown room_id message_type)
  end.

(** Lines 46-48, the body of the [for]: the clients are visited in list
    order and the first [send_json] that raises ends the loop. The loop runs
    on [clients], the member list as it was when the loop started: this is
    the loop of the source when no other handler changes the list while a
    send is pending ([live_fanout] is the loop on the live list). *)
Fixpoint for_each_client (env : send_env) (ws : WebSocket) (data : json)
    (clients : list WebSocket) : M unit :=
  match clients with
  | [] => ret tt
  | client :: rest =>
      (if decide (client ≠ ws) then send_json env client data else ret tt);;
      for_each_client env ws data rest
  end.

(** Lines 46-48: [for client in rooms[room_id]: ...]. *)
Definition broadcast (env : send_env) (room_id : string) (ws : WebSocket)
    (data : json) : M unit :=
  clients ← subscript room_id;
  for_each_client env ws data clients.

(** Lines 31-48: one turn of the [while True] loop, given what
    [receive_json] comes back with. *)
Definition iteration (env : send_env) (room_id : string) (ws : WebSocket)
    (r : exn + json) : M unit :=
  data ← receive_json r;
  log_message room_id data;;
  broadcast env room_id ws data.

(** Lines 30-48: the loop, run on the successive outcomes of
    [receive_json]. It returns only when these are used up, which stands for
    the handler suspended in [receive_json]; the loop itself is left by an
    exception only. *)
Fixpoint receive_loop (env : send_env) (room_id : string) (ws : WebSocket)
    (inbound : list (exn + json)) : M unit :=
  match inbound with
  | [] => ret tt
  | r :: rest =>
      iteration env room_id ws r;;
      receive_loop env room_id ws rest
  end.

(** Lines 51-54: the body of [except WebSocketDisconnect]. *)
Definition on_disconnect (room_id : string) (ws : WebSocket) : M unit :=
  λ w, match leave (rooms w) room_id ws with
       | inl e => (inl e, w)
       | inr rooms' =>
           (inr tt, mkWorld rooms' (out w ++ [Print (LogDisconnected room_id)])
                            (sends w))
       end.

(** Where a handler stands: suspended in [receive_json] with its connection
    open, ended by the [except] clause, or ended by an exception that left
    the coroutine. *)
Inductive status : Type :=
  | Joined
  | Removed
  | Failed (e : exn).

(** Lines 29-54: [try: body except WebSocketDisconnect: ...]. *)
Definition try_body (room_id : string) (ws : WebSocket) (body : M unit)
  : World → status * World :=
  λ w, match body w with
       | (inr _, w') => (Joined, w')
       | (inl WebSocketDisconnect, w') =>
           match on_disconnect room_id ws w' with
           | (inr _, w'') => (Removed, w'')
           | (inl e, w'') => (Failed e, w'')
           end
       | (inl e, w') => (Failed e, w')
       end.

(** The whole coroutine, for a connection whose [receive_json] calls come
    back with [inbound]. The handshake of line 20, [ws.accept()], is taken
    to have succeeded. *)
Definition websocket_endpoint (env : send_env) (ws : WebSocket)
    (room_id : string) (inbound : list (exn + json))
  : World → status * World :=
  λ w, match on_connect room_id ws w with
       | (inr _, w') =>
           try_body room_id ws (receive_loop env room_id ws inbound) w'
       | (inl e, w') => (Failed e, w')
       end.

(** ** What a run shows *)

(** The completed sends among the events, in order. *)
Definition deliveries (evs : list event) : list (WebSocket * json) :=
  omap (λ ev, match ev with Sent c d => Some (c, d) | Print _ => None end) evs.

(** The payloads delivered to one connection, in order. *)
Definition received_by (c : WebSocket) (evs : list event) : list json :=
  omap (λ ev, match ev with
              | Sent c' d => if decide (c' = c) then Some d else None
              | Print _ => None
              end) evs.

(** The lines printed, in order. *)
Definition printed (evs : list event) : list log_line :=
  omap (λ ev, match ev with Print l => Some l | Sent _ _ => None end) evs.

(** The members of a room that the [for] loop of a handler for [ws] calls
    [send_json] on: those that are not [ws], in list order. *)
Definition recipients (ws : WebSocket) (clients : list WebSocket)
  : list WebSocket :=
  filter (λ client, client ≠ ws) clients.

(** ** The [for] loop on the live list *)

(** [for_each_client] runs the loop on the member list as it finds it. In
    the source the list is the live object [rooms[room_id]] and each
    [send_json] is a suspension point, at which other handlers may append to
    the list (line 25) or remove from it (line 51). What follows is the loop
    with these changes, for sends that all complete. *)
Inductive change : Type :=
  | Joins (c : WebSocket)
  | Leaves (c : WebSocket).

Definition apply_change (l : list WebSocket) (ch : change)
  : list WebSocket :=
  match ch with
  | Joins c => l ++ [c]
  | Leaves c => default l (list_remove c l)
  end.

(** The list iterator holds the index of the next element and stops when
    that index is past the end of the list as it is then: the next client
    other than [ws] among [suffix], the elements from index [i] on, with
    the index after it. *)
Fixpoint next_other (ws : WebSocket) (suffix : list WebSocket) (i : nat)
  : option (WebSocket * nat) :=
  match suffix with
  | [] => None
  | client :: rest =>
      if decide (client ≠ ws) then Some (client, S i)
      else next_other ws rest (S i)
  end.

(** The deliveries of the loop from index [i] of the member list [l], where
    [during] holds, for each successive send, what the other handlers do to
    the list while that send is pending (nothing, once [during] is used
    up). *)
Fixpoint live_fanout (ws : WebSocket) (data : json)
    (during : list (list change)) (l : list WebSocket) (i : nat)
  : list (WebSocket * json) :=
  match during with
  | [] => (λ c, (c, data)) <$> recipients ws (drop i l)
  | changes :: rest =>
      match next_other ws (drop i l) i with
      | None => []
      | Some (client, i') =>
          (client, data)
          :: live_fanout ws data rest (foldl apply_change l changes) i'
      end
  end.

(** Whether a JSON value is an object, the only kind of value with [get]. *)
Definition is_object (data : json) : Prop :=
  match data with JObj _ => True | _ => False end.

(** What [log_message] prints for a message whose [type] is
    [message_type]. *)
Definition log_lines (room_id : string) (data : json) (message_type : json)
  : list log_line :=
  match classify message_type with
  | content =>
      match get data "sender" (JStr "Unknown") with
      | inr sender => [LogReceived room_id message_type sender]
      | inl _ => []
      end
  | signal => []
  | unknown => [LogUnknown room_id message_type]
  end.

(** ** Several connections *)

(** A server process: the world, the handlers that are suspended in
    [receive_json] (each with the [room_id] it was started with), and the
    number of connection objects created so far. Connection objects are
    numbered in order of creation, so a new one is different from all those
    still referenced. *)
Record System : Type := mkSystem {
  world : World;
  handlers : gmap WebSocket string;
  created : nat
}.

Definition init_system : System := mkSystem init_world ∅ 0.

(** What happens to the server: a client connects to [/ws/room_id], or the
    pending [receive_json] of a handler comes back. *)
Inductive action : Type :=
  | Connect (room_id : string)
  | Receive (ws : WebSocket) (r : exn + json).

(** One step of the server. The registry is written by lines 22-25 and
    51-54 only, and neither stretch contains an [await], so each is a single
    step. A turn of the loop is taken as a single step too: a handler runs
    from one suspension in [receive_json] to the next, or to its end, and the
    other handlers take their turns before or after. A [Receive] for a
    connection with no suspended handler does nothing. *)
Definition step (env : send_env) (s : System) (a : action) : System :=
  match a with
  | Connect room_id =>
      let ws := created s in
      mkSystem (on_connect room_id ws (world s)).2
               (<[ws := room_id]> (handlers s)) (S ws)
  | Receive ws r =>
      match handlers s !! ws with
      | None => s
      | Some room_id =>
          match try_body room_id ws (iteration env room_id ws r) (world s) with
          | (Joined, w') => mkSystem w' (handlers s) (created s)
          | (_, w') => mkSystem w' (delete ws (handlers s)) (created s)
          end
      end
  end.

Definition run (env : send_env) (acts : list action) : System :=
  fold_left (step env) acts init_system.

(** The registry invariant: no room is empty, no list holds a connection
    twice, no connection is in two rooms. *)
Record registry_ok (rs : Rooms) : Prop := {
  ok_nonempty : ∀ r l, rs !! r = Some l → l ≠ [];
  ok_nodup : ∀ r l, rs !! r = Some l → NoDup l;
  ok_one_room : ∀ r1 r2 l1 l2 ws,
    rs !! r1 = Some l1 → rs !! r2 = Some l2 → ws ∈ l1 → ws ∈ l2 → r1 = r2
}.

(** The invariant of the server: the registry invariant, every suspended
    handler has its connection in its room, and every connection referenced
    was created. *)
Record system_ok (s : System) : Prop := {
  sys_registry : registry_ok (rooms (world s));
  sys_member : ∀ ws room_id, handlers s !! ws = Some room_id →
    ∃ l, rooms (world s) !! room_id = Some l ∧ ws ∈ l;
  sys_created_reg : ∀ r l ws,
    rooms (world s) !! r = Some l → ws ∈ l → ws < created s;
  sys_created_h : ∀ ws room_id, handlers s !! ws = Some room_id →
    ws < created s
}.

(** Whether the line that [log_message] prints for a message, if any, can
    be written. *)
Definition loggable (data : json) : bool :=
  match data with
  | JObj fields =>
      forallb print_ok
        (log_lines "" data (default JNull (dict_get "type" fields)))
  | _ => true
  end.

(** ** Some connections and messages *)

Definition X : WebSocket := 0.
Definition Y : WebSocket := 1.
Definition Z' : WebSocket := 2.

Definition chat_hi : json :=
  JObj [("type", JStr "chat"); ("sender", JStr "X"); ("text", JStr "hi")].

Definition offer_hi : json :=
  JObj [("type", JStr "offer"); ("sender", JStr "X"); ("text", JStr "hi")].

Definition no_type : json := JObj [("text", JStr "hi")].

Definition alone_in_r1 : World := mkWorld {[ "r1" := [X] ]} [] 0.
Definition two_in_r1 : World := mkWorld {[ "r1" := [X; Y] ]} [] 0.
Definition three_in_r1 : World := mkWorld {[ "r1" := [X; Y; Z'] ]} [] 0.

(** The string made of the one code point U+D800, a lone surrogate. *)
Definition lone_d800 : string :=
  String (Ascii.ascii_of_nat 237)
    (String (Ascii.ascii_of_nat 160)
       (String (Ascii.ascii_of_nat 128) EmptyString)).

(** A message whose [type] is that string. *)
Definition surrogate_hi : json :=
  JObj [("type", JStr lone_d800); ("sender", JStr "X"); ("text", JStr "hi")].


(** The first [send_json] of the process raises [e], the others complete. *)
Definition first_send_raises (e : exn) : send_env :=
  λ n, if decide (n = 0) then Some e else None.

(** Three clients connect to [r1], in the order [X], [Y], [Z']. *)
Definition three_connect : list action :=
  [Connect "r1"; Connect "r1"; Connect "r1"].


(** ** Runs without errors *)

(** What a handler receives is a disconnect or a message that is an
    object whose log line can be written: [receive_json] raises nothing
    else, [data.get] exists and [print] does not raise. *)
Definition benign_action (a : action) : Prop :=
  match a with
  | Connect _ => True
  | Receive _ (inl e) => e = WebSocketDisconnect
  | Receive _ (inr data) => is_object data ∧ loggable data = true
  end.

(** A [send_json] that raises, raises [WebSocketDisconnect]. *)
Definition only_disconnects (env : send_env) : Prop :=
  ∀ n e, env n = Some e → e = WebSocketDisconnect.

(** The messages read by a handler, as outcomes of [receive_json]. *)
Definition received (msgs : list json) : list (exn + json) :=
  inr <$> msgs.

(** * Properties *)

(** ** [list.remove] *)

Lemma list_remove_None ws l : list_remove ws l = None ↔ ws ∉ l.
Proof.
  induction l as [|c l IH]; simpl.
  - split; [intros _; apply not_elem_of_nil | done].
  - case_decide as Hc.
    + subst c. split; [done | intros []; left].
    + rewrite not_elem_of_cons, <- IH.
      destruct (list_remove ws l); simpl; intuition congruence.
Qed.

Lemma list_remove_Some ws l :
  ws ∈ l → ∃ l', list_remove ws l = Some l'.
Proof.
  intros Hin. destruct (list_remove ws l) as [l'|] eqn:E; [eauto|].
  by apply list_remove_None in E.
Qed.

Lemma list_remove_length ws l l' :
  list_remove ws l = Some l' → length l = S (length l').
Proof.
  revert l'. induction l as [|c l IH]; simpl; intros l' H; [done|].
  case_decide.
  - by simplify_eq.
  - destruct (list_remove ws l) as [l0|]; simplify_eq/=.
    by rewrite (IH l0).
Qed.

Lemma list_remove_elem_of ws l l' c :
  list_remove ws l = Some l' → c ∈ l' → c ∈ l.
Proof.
  revert l'. induction l as [|c0 l IH]; simpl; intros l' H Hc; [done|].
  case_decide.
  - simplify_eq. by right.
  - destruct (list_remove ws l) as [l0|]; simplify_eq/=.
    apply elem_of_cons in Hc as [->|Hc]; [left | right; eauto].
Qed.

Lemma list_remove_other ws l l' c :
  list_remove ws l = Some l' → c ∈ l → c ≠ ws → c ∈ l'.
Proof.
  revert l'. induction l as [|c0 l IH]; simpl; intros l' H Hc Hne.
  - by apply elem_of_nil in Hc.
  - case_decide.
    + simplify_eq. apply elem_of_cons in Hc as [->|Hc]; done.
    + destruct (list_remove ws l) as [l0|] eqn:E; simpl in H; [|done].
      injection H as <-.
      apply elem_of_cons in Hc as [->|Hc]; [left | right; eauto].
Qed.

Lemma list_remove_NoDup ws l l' :
  NoDup l → list_remove ws l = Some l' → NoDup l' ∧ ws ∉ l'.
Proof.
  revert l'. induction l as [|c l IH]; simpl; intros l' Hnd H; [done|].
  apply NoDup_cons in Hnd as [Hc Hnd].
  case_decide.
  - by simplify_eq.
  - destruct (list_remove ws l) as [l0|] eqn:E; simplify_eq/=.
    destruct (IH l0 Hnd eq_refl) as [Hnd0 Hws]. split.
    + apply NoDup_cons. split; [|done].
      intros Hc0. apply Hc. eapply list_remove_elem_of; eauto.
    + rewrite not_elem_of_cons. split; [congruence | done].
Qed.

(** ** [join] and [leave] on the registry *)

Lemma join_insert rs room_id ws :
  join rs room_id ws = <[room_id := default [] (rs !! room_id) ++ [ws]]> rs.
Proof.
  unfold join. apply map_eq. intros r.
  destruct (decide (r = room_id)) as [->|Hne].
  - rewrite lookup_insert_eq. case_decide as E.
    + by rewrite lookup_alter_eq, lookup_insert_eq, E.
    + rewrite lookup_alter_eq. by destruct (rs !! room_id).
  - rewrite lookup_insert_ne by done. case_decide.
    + by rewrite lookup_alter_ne, lookup_insert_ne.
    + by rewrite lookup_alter_ne.
Qed.

Lemma join_lookup rs room_id ws :
  join rs room_id ws !! room_id = Some (default [] (rs !! room_id) ++ [ws]).
Proof. by rewrite join_insert, lookup_insert_eq. Qed.

Lemma join_lookup_ne rs room_id ws r :
  r ≠ room_id → join rs room_id ws !! r = rs !! r.
Proof. intros. by rewrite join_insert, lookup_insert_ne. Qed.

Lemma leave_Some rs room_id ws l l' :
  rs !! room_id = Some l → list_remove ws l = Some l' →
  leave rs room_id ws =
    inr (if decide (l' = []) then delete room_id rs
         else <[room_id := l']> rs).
Proof.
  intros Hl Hrm. unfold leave. rewrite Hl, Hrm.
  case_decide; [|done]. by rewrite delete_insert_eq.
Qed.

Lemma leave_inr rs room_id ws rs' :
  leave rs room_id ws = inr rs' →
  ∃ l l', rs !! room_id = Some l ∧ list_remove ws l = Some l' ∧
          rs' = (if decide (l' = []) then delete room_id rs
                 else <[room_id := l']> rs).
Proof.
  intros H. unfold leave in H.
  destruct (rs !! room_id) as [l|] eqn:Hl; [|done].
  destruct (list_remove ws l) as [l'|] eqn:Hrm; [|done].
  exists l, l'. split_and!; [done..|].
  injection H as <-. case_decide; [|done]. by rewrite delete_insert_eq.
Qed.

Lemma leave_lookup_ne rs room_id ws rs' r :
  leave rs room_id ws = inr rs' → r ≠ room_id → rs' !! r = rs !! r.
Proof.
  intros (l & l' & _ & _ & ->)%leave_inr Hne. case_decide.
  - by rewrite lookup_delete_ne.
  - by rewrite lookup_insert_ne.
Qed.

(** ** The registry invariant *)

Lemma registry_ok_empty : registry_ok ∅.
Proof. split; intros *; by rewrite lookup_empty. Qed.

Lemma registry_ok_join rs room_id ws :
  registry_ok rs → ¬ registered rs ws → registry_ok (join rs room_id ws).
Proof.
  intros [Hne Hnd Hone] Hfresh.
  assert (Hnot : ∀ r l, rs !! r = Some l → ws ∉ l).
  { intros r l Hl Hin. apply Hfresh. by exists r, l. }
  assert (Hlook : ∀ r m, join rs room_id ws !! r = Some m →
    (r = room_id ∧ m = default [] (rs !! room_id) ++ [ws]) ∨
    (r ≠ room_id ∧ rs !! r = Some m)).
  { intros r m Hm. destruct (decide (r = room_id)) as [->|Hr].
    - rewrite join_lookup in Hm. left. by simplify_eq.
    - rewrite join_lookup_ne in Hm by done. by right. }
  assert (Hold : ∀ c, c ∈ default [] (rs !! room_id) ++ [ws] → c ≠ ws →
    ∃ l, rs !! room_id = Some l ∧ c ∈ l).
  { intros c Hc Hcw. apply elem_of_app in Hc as [Hc|Hc].
    - destruct (rs !! room_id) as [l|]; simpl in Hc; [eauto|].
      by apply elem_of_nil in Hc.
    - by apply list_elem_of_singleton in Hc. }
  split.
  - intros r m [[-> ->]|[_ Hm]]%Hlook; [|eauto].
    by destruct (default [] (rs !! room_id)).
  - intros r m [[-> ->]|[_ Hm]]%Hlook; [|eauto].
    apply NoDup_app. split_and!.
    + destruct (rs !! room_id) as [l|] eqn:E; simpl; [eauto | constructor].
    + intros c Hc ->%list_elem_of_singleton.
      destruct (rs !! room_id) as [l|] eqn:E; simpl in Hc; [by eapply Hnot|].
      by apply elem_of_nil in Hc.
    + apply NoDup_singleton.
  - intros r1 r2 m1 m2 c [[-> ->]|[Hr1 Hm1]]%Hlook [[-> ->]|[Hr2 Hm2]]%Hlook
      Hc1 Hc2; [done|..].
    + destruct (decide (c = ws)) as [->|Hcw]; [by destruct (Hnot _ _ Hm2)|].
      destruct (Hold c Hc1 Hcw) as (l & Hl & Hcl). eauto.
    + destruct (decide (c = ws)) as [->|Hcw]; [by destruct (Hnot _ _ Hm1)|].
      destruct (Hold c Hc2 Hcw) as (l & Hl & Hcl). eauto.
    + eauto.
Qed.

(** What [leave] does to a registry that satisfies the invariant. *)
Lemma registry_ok_leave rs room_id ws l :
  registry_ok rs → rs !! room_id = Some l → ws ∈ l →
  ∃ rs', leave rs room_id ws = inr rs' ∧ registry_ok rs' ∧
         ¬ registered rs' ws ∧
         (l = [ws] → rs' !! room_id = None) ∧
         (∀ r c m, rs' !! r = Some m → c ∈ m →
            ∃ m0, rs !! r = Some m0 ∧ c ∈ m0) ∧
         (∀ r c m0, rs !! r = Some m0 → c ∈ m0 → c ≠ ws →
            ∃ m, rs' !! r = Some m ∧ c ∈ m).
Proof.
  intros [Hne Hnd Hone] Hl Hin.
  destruct (list_remove_Some ws l Hin) as [l' Hrm].
  destruct (list_remove_NoDup ws l l' (Hnd _ _ Hl) Hrm) as [Hnd' Hws].
  eexists. split; [by apply (leave_Some _ _ _ l l')|].
  set (rs' := if decide (l' = []) then delete room_id rs
              else <[room_id:=l']> rs).
  assert (Hlook : ∀ r m, rs' !! r = Some m →
    (r = room_id ∧ m = l' ∧ l' ≠ []) ∨ (r ≠ room_id ∧ rs !! r = Some m)).
  { intros r m. unfold rs'. case_decide as E.
    - destruct (decide (r = room_id)) as [->|Hr].
      + by rewrite lookup_delete_eq.
      + rewrite lookup_delete_ne by done. by right.
    - destruct (decide (r = room_id)) as [->|Hr].
      + rewrite lookup_insert_eq. intros ?; simplify_eq. by left.
      + rewrite lookup_insert_ne by done. by right. }
  split_and!.
  - split.
    + intros r m [(-> & -> & ?)|[_ Hm]]%Hlook; eauto.
    + intros r m [(-> & -> & ?)|[_ Hm]]%Hlook; eauto.
    + intros r1 r2 m1 m2 c [(-> & -> & ?)|[Hr1 Hm1]]%Hlook
        [(-> & -> & ?)|[Hr2 Hm2]]%Hlook Hc1 Hc2; [done|..].
      * eapply Hone; [exact Hl | exact Hm2 | | done].
        by eapply list_remove_elem_of.
      * eapply Hone; [exact Hm1 | exact Hl | done |].
        by eapply list_remove_elem_of.
      * eauto.
  - intros (r & m & [(-> & -> & ?)|[Hr Hm]]%Hlook & Hc); [done|].
    apply Hr. eauto.
  - intros ->. unfold rs'. simpl in Hrm. rewrite decide_True in Hrm by done.
    simplify_eq. by rewrite decide_True, lookup_delete_eq.
  - intros r c m [(-> & -> & ?)|[_ Hm]]%Hlook Hc; [|eauto].
    exists l. split; [done|]. by eapply list_remove_elem_of.
  - intros r c m0 Hm0 Hc Hcw. unfold rs'.
    destruct (decide (r = room_id)) as [->|Hr].
    + simplify_eq.
      pose proof (list_remove_other _ _ _ _ Hrm Hc Hcw) as Hc'.
      rewrite decide_False by (intros ->; by apply elem_of_nil in Hc').
      rewrite lookup_insert_eq. eauto.
    + case_decide.
      * rewrite lookup_delete_ne by done. eauto.
      * rewrite lookup_insert_ne by done. eauto.
Qed.

(** ** Computations *)

Lemma bind_unfold {A B} (m : M A) (k : A → M B) w :
  (m ≫= k) w = match m w with
                | (inr a, w') => k a w'
                | (inl e, w') => (inl e, w')
                end.
Proof. reflexivity. Qed.

Lemma deliveries_app evs1 evs2 :
  deliveries (evs1 ++ evs2) = deliveries evs1 ++ deliveries evs2.
Proof. apply omap_app. Qed.

Lemma printed_app evs1 evs2 :
  printed (evs1 ++ evs2) = printed evs1 ++ printed evs2.
Proof. apply omap_app. Qed.

Lemma deliveries_Print lines : deliveries (Print <$> lines) = [].
Proof. induction lines; simpl; done. Qed.

Lemma deliveries_Sent data cs :
  deliveries ((λ c, Sent c data) <$> cs) = (λ c, (c, data)) <$> cs.
Proof. induction cs; simpl; [done | by f_equal]. Qed.

(** What one connection gets out of a run of sends of [data]: one copy for
    each of its occurrences. *)
Lemma received_by_Sent_notin c data cs :
  c ∉ cs → received_by c ((λ c, Sent c data) <$> cs) = [].
Proof.
  induction cs as [|c0 cs IH]; simpl; [done|].
  rewrite not_elem_of_cons. intros [Hne Hc].
  rewrite decide_False by done. auto.
Qed.

Lemma received_by_Sent_once c data cs :
  NoDup cs → c ∈ cs → received_by c ((λ c, Sent c data) <$> cs) = [data].
Proof.
  induction cs as [|c0 cs IH]; simpl; intros Hnd Hc.
  - by apply elem_of_nil in Hc.
  - apply NoDup_cons in Hnd as [Hc0 Hnd]. case_decide as E.
    + subst c0. by rewrite received_by_Sent_notin.
    + apply elem_of_cons in Hc as [->|Hc]; [done | auto].
Qed.

Lemma elem_of_recipients ws clients c :
  c ∈ recipients ws clients ↔ c ∈ clients ∧ c ≠ ws.
Proof. unfold recipients. rewrite list_elem_of_filter. tauto. Qed.

Lemma NoDup_recipients ws clients :
  NoDup clients → NoDup (recipients ws clients).
Proof. apply NoDup_filter. Qed.

(** Bring the deliveries of a list of events built from printed lines and
    sends to the list of the sends. *)
Ltac norm_deliveries :=
  simpl;
  rewrite ?deliveries_app, ?deliveries_Print, ?deliveries_Sent, ?app_nil_r.

(** [log_message] on an object prints its line, if it has one, or raises
    when the line cannot be written; on any other value the call of [get]
    raises. *)
Lemma log_message_object room_id fields w :
  log_message room_id (JObj fields) w =
    if loggable (JObj fields)
    then (inr tt, mkWorld (rooms w)
            (out w ++ (Print <$> log_lines room_id (JObj fields)
                         (default JNull (dict_get "type" fields))))
            (sends w))
    else (inl UnicodeEncodeError, w).
Proof.
  unfold log_message, loggable, log_lines. rewrite bind_unfold. simpl.
  destruct (classify _); simpl.
  - rewrite bind_unfold. simpl. unfold print. simpl.
    rewrite andb_true_r. by destruct (_ && _).
  - unfold ret. destruct w; simpl. by rewrite app_nil_r.
  - unfold print. simpl. rewrite andb_true_r. by destruct (encodable _).
Qed.

Lemma log_message_not_object room_id data w :
  ¬ is_object data → log_message room_id data w = (inl AttributeError, w).
Proof. destruct data; simpl; intros H; done. Qed.

(** The line of a message of unknown type can be written exactly when its
    type can; a signalling message has no line. *)
Lemma loggable_unknown fields :
  classify (default JNull (dict_get "type" fields)) = unknown →
  loggable (JObj fields) = encodable (default JNull (dict_get "type" fields)).
Proof.
  intros Hcl. unfold loggable, log_lines. rewrite Hcl. simpl.
  by rewrite andb_true_r.
Qed.

Lemma loggable_signal fields :
  classify (default JNull (dict_get "type" fields)) = signal →
  loggable (JObj fields) = true.
Proof. intros Hcl. unfold loggable, log_lines. by rewrite Hcl. Qed.

Lemma log_lines_unknown room_id data message_type :
  classify message_type = unknown →
  log_lines room_id data message_type = [LogUnknown room_id message_type].
Proof. intros Hcl. unfold log_lines. by rewrite Hcl. Qed.

(** ** The relay, for a given environment *)

Section Relay.

Context (env : send_env).

Lemma for_each_client_cons ws data client rest w :
  for_each_client env ws data (client :: rest) w =
    if decide (client ≠ ws) then
      match send_json env client data w with
      | (inr _, w') => for_each_client env ws data rest w'
      | (inl e, w') => (inl e, w')
      end
    else for_each_client env ws data rest w.
Proof. simpl. rewrite bind_unfold. by case_decide. Qed.

(** All the sends complete: every recipient is sent [data], in list order. *)
Lemma for_each_client_ok ws data clients w :
  (∀ i, i < length (recipients ws clients) → env (sends w + i) = None) →
  for_each_client env ws data clients w =
    (inr tt, mkWorld (rooms w)
               (out w ++ ((λ c, Sent c data) <$> recipients ws clients))
               (sends w + length (recipients ws clients))).
Proof.
  revert w. induction clients as [|client rest IH]; intros w Henv.
  - simpl. unfold ret. destruct w; simpl.
    by rewrite app_nil_r, Nat.add_0_r.
  - rewrite for_each_client_cons. unfold recipients in *.
    rewrite filter_cons in *. case_decide as Hc; simpl in *.
    + unfold send_json. pose proof (Henv 0 ltac:(lia)) as H0.
      rewrite Nat.add_0_r in H0. rewrite H0. rewrite IH; simpl.
      * by rewrite <- app_assoc, Nat.add_succ_r.
      * intros i Hi. rewrite <- Nat.add_succ_r. apply Henv. lia.
    + by apply IH.
Qed.

(** The [k]-th send raises: the recipients before it were sent [data], the
    others nothing, and the exception leaves the loop. *)
Lemma for_each_client_raise ws data clients w k e :
  k < length (recipients ws clients) →
  (∀ i, i < k → env (sends w + i) = None) →
  env (sends w + k) = Some e →
  for_each_client env ws data clients w =
    (inl e, mkWorld (rooms w)
              (out w ++ ((λ c, Sent c data) <$> take k (recipients ws clients)))
              (sends w + S k)).
Proof.
  revert w k. induction clients as [|client rest IH]; intros w k Hk Hlt He.
  - simpl in Hk. lia.
  - rewrite for_each_client_cons. unfold recipients in *.
    rewrite filter_cons in *. case_decide as Hc; simpl in *.
    + unfold send_json. destruct k as [|k].
      * rewrite Nat.add_0_r in He. rewrite He. simpl.
        by rewrite app_nil_r, Nat.add_1_r.
      * pose proof (Hlt 0 ltac:(lia)) as H0.
        rewrite Nat.add_0_r in H0. rewrite H0.
        rewrite (IH _ k); simpl.
        -- by rewrite <- app_assoc, !Nat.add_succ_r.
        -- lia.
        -- intros i Hi. rewrite <- Nat.add_succ_r. apply Hlt. lia.
        -- by rewrite <- Nat.add_succ_r.
    + by apply IH.
Qed.

(** Among [n] successive sends either all complete or there is a first one
    that raises. *)
Lemma first_raise (start n : nat) :
  (∀ i, i < n → env (start + i) = None) ∨
  (∃ k e, k < n ∧ (∀ i, i < k → env (start + i) = None) ∧
          env (start + k) = Some e).
Proof.
  induction n as [|n [IH|(k & e & Hk & Hlt & He)]].
  - left. intros i Hi. lia.
  - destruct (env (start + n)) as [e|] eqn:E.
    + right. exists n, e. split_and!; [lia | done | done].
    + left. intros i Hi. destruct (decide (i = n)) as [->|]; [done|].
      apply IH. lia.
  - right. exists k, e. split_and!; [lia | done | done].
Qed.

(** Whatever the sends do, the loop sends [data] to an initial segment of
    the recipients and leaves the registry alone; it returns when that
    segment is the whole list and raises otherwise. *)
Lemma for_each_client_any ws data clients w :
  ∃ (k : nat) r w',
    for_each_client env ws data clients w = (r, w') ∧
    rooms w' = rooms w ∧
    out w' = out w ++ ((λ c, Sent c data) <$> take k (recipients ws clients)) ∧
    ((r = inr tt ∧ k = length (recipients ws clients)) ∨
     (∃ e, r = inl e ∧ k < length (recipients ws clients))).
Proof.
  destruct (first_raise (sends w) (length (recipients ws clients)))
    as [Hok|(k & e & Hk & Hlt & He)].
  - eexists (length (recipients ws clients)), _, _.
    split; [by apply for_each_client_ok|]. simpl.
    rewrite firstn_all. split_and!; [done..|]. by left.
  - eexists k, _, _.
    split; [by apply (for_each_client_raise _ _ _ _ k e)|]. simpl.
    split_and!; [done..|]. right. eauto.
Qed.

Lemma broadcast_unfold room_id ws data w :
  broadcast env room_id ws data w =
    match rooms w !! room_id with
    | Some clients => for_each_client env ws data clients w
    | None => (inl KeyError, w)
    end.
Proof.
  unfold broadcast, subscript. rewrite bind_unfold.
  by destruct (rooms w !! room_id).
Qed.

Lemma iteration_raise room_id ws e w :
  iteration env room_id ws (inl e) w = (inl e, w).
Proof. reflexivity. Qed.

Lemma iteration_object room_id ws fields w :
  loggable (JObj fields) = true →
  iteration env room_id ws (inr (JObj fields)) w =
    broadcast env room_id ws (JObj fields)
      (mkWorld (rooms w)
         (out w ++ (Print <$> log_lines room_id (JObj fields)
                      (default JNull (dict_get "type" fields))))
         (sends w)).
Proof.
  intros Hlog. unfold iteration. rewrite bind_unfold. simpl.
  rewrite bind_unfold. by rewrite log_message_object, Hlog.
Qed.

(** A message whose log line cannot be written ends the turn before the
    broadcast. *)
Lemma iteration_unloggable room_id ws fields w :
  loggable (JObj fields) = false →
  iteration env room_id ws (inr (JObj fields)) w
    = (inl UnicodeEncodeError, w).
Proof.
  intros Hlog. unfold iteration. rewrite bind_unfold. simpl.
  rewrite bind_unfold. by rewrite log_message_object, Hlog.
Qed.

Lemma iteration_not_object room_id ws data w :
  ¬ is_object data →
  iteration env room_id ws (inr data) w = (inl AttributeError, w).
Proof.
  intros H. unfold iteration. rewrite bind_unfold. simpl.
  rewrite bind_unfold. by rewrite log_message_not_object.
Qed.

(** Only [on_connect] and [on_disconnect] write to the registry. *)
Lemma for_each_client_rooms ws data clients w :
  rooms (for_each_client env ws data clients w).2 = rooms w.
Proof.
  destruct (for_each_client_any ws data clients w)
    as (k & r & w' & -> & Hr & _). done.
Qed.

Lemma broadcast_rooms room_id ws data w :
  rooms (broadcast env room_id ws data w).2 = rooms w.
Proof.
  rewrite broadcast_unfold. destruct (rooms w !! room_id); [|done].
  apply for_each_client_rooms.
Qed.

Lemma iteration_rooms room_id ws r w :
  rooms (iteration env room_id ws r w).2 = rooms w.
Proof.
  destruct r as [e|data]; [done|].
  destruct data; try (by rewrite iteration_not_object by (simpl; tauto)).
  destruct (loggable (JObj fields)) eqn:Hlog.
  - rewrite iteration_object by done. by rewrite broadcast_rooms.
  - by rewrite iteration_unloggable.
Qed.

Lemma receive_loop_rooms room_id ws inbound w :
  rooms (receive_loop env room_id ws inbound w).2 = rooms w.
Proof.
  revert w. induction inbound as [|r rest IH]; intros w; [done|].
  simpl. rewrite bind_unfold.
  pose proof (iteration_rooms room_id ws r w) as Hit.
  destruct (iteration env room_id ws r w) as [[e|[]] w1]; simpl in *;
    [done|]. by rewrite IH.
Qed.

(** The [try] statement around a loop that has at least one turn to make. *)
Lemma try_body_cons room_id ws r rest w :
  try_body room_id ws (receive_loop env room_id ws (r :: rest)) w =
    match try_body room_id ws (iteration env room_id ws r) w with
    | (Joined, w') =>
        try_body room_id ws (receive_loop env room_id ws rest) w'
    | res => res
    end.
Proof.
  unfold try_body at 1 2. simpl. rewrite bind_unfold.
  destruct (iteration env room_id ws r w) as [[e|[]] w1]; [|done].
  destruct e; try done.
  by destruct (on_disconnect room_id ws w1) as [[e|[]] w2].
Qed.

Lemma try_body_nil room_id ws w :
  try_body room_id ws (receive_loop env room_id ws []) w = (Joined, w).
Proof. reflexivity. Qed.

End Relay.

(** The three ways out of the [try] statement. *)
Lemma try_body_returns room_id ws (body : M unit) w w' :
  body w = (inr tt, w') → try_body room_id ws body w = (Joined, w').
Proof. unfold try_body. by intros ->. Qed.

Lemma try_body_disconnect room_id ws (body : M unit) w w' :
  body w = (inl WebSocketDisconnect, w') →
  try_body room_id ws body w =
    match leave (rooms w') room_id ws with
    | inr rooms' =>
        (Removed, mkWorld rooms'
           (out w' ++ [Print (LogDisconnected room_id)]) (sends w'))
    | inl e => (Failed e, w')
    end.
Proof.
  unfold try_body, on_disconnect. intros ->.
  by destruct (leave (rooms w') room_id ws).
Qed.

Lemma try_body_other room_id ws (body : M unit) w w' e :
  body w = (inl e, w') → e ≠ WebSocketDisconnect →
  try_body room_id ws body w = (Failed e, w').
Proof. unfold try_body. intros -> He. by destruct e. Qed.

(** ** The invariant of the server *)

Lemma system_ok_init : system_ok init_system.
Proof.
  split; simpl.
  - apply registry_ok_empty.
  - intros *. by rewrite lookup_empty.
  - intros *. by rewrite lookup_empty.
  - intros *. by rewrite lookup_empty.
Qed.

Lemma system_ok_connect env s room_id :
  system_ok s → system_ok (step env s (Connect room_id)).
Proof.
  intros [Hreg Hmem Hcr Hch]. simpl.
  assert (Hfresh : ¬ registered (rooms (world s)) (created s)).
  { intros (r & l & Hl & Hin). specialize (Hcr _ _ _ Hl Hin). lia. }
  assert (Hlook : ∀ r m c, join (rooms (world s)) room_id (created s) !! r
      = Some m → c ∈ m →
    c = created s ∨ ∃ l, rooms (world s) !! r = Some l ∧ c ∈ l).
  { intros r m c Hm Hc. destruct (decide (r = room_id)) as [->|Hr].
    - rewrite join_lookup in Hm. simplify_eq.
      apply elem_of_app in Hc as [Hc|Hc].
      + destruct (rooms (world s) !! room_id) as [l|]; simpl in Hc;
          [eauto | by apply elem_of_nil in Hc].
      + left. by apply list_elem_of_singleton in Hc.
    - rewrite join_lookup_ne in Hm by done. eauto. }
  split; simpl.
  - by apply registry_ok_join.
  - intros ws r Hws. destruct (decide (ws = created s)) as [->|Hne].
    + rewrite lookup_insert_eq in Hws. simplify_eq.
      eexists. split; [apply join_lookup|].
      apply elem_of_app. right. by apply list_elem_of_singleton.
    + rewrite lookup_insert_ne in Hws by done.
      destruct (Hmem _ _ Hws) as (l & Hl & Hin).
      destruct (decide (r = room_id)) as [->|Hr].
      * eexists. split; [apply join_lookup|]. rewrite Hl. simpl.
        apply elem_of_app. by left.
      * exists l. by rewrite join_lookup_ne.
  - intros r m c Hm Hc.
    destruct (Hlook _ _ _ Hm Hc) as [->|(l & Hl & Hin)]; [lia|].
    specialize (Hcr _ _ _ Hl Hin). lia.
  - intros ws r Hws. destruct (decide (ws = created s)) as [->|Hne]; [lia|].
    rewrite lookup_insert_ne in Hws by done.
    specialize (Hch _ _ Hws). lia.
Qed.

(** In a server that satisfies the invariant, the [except] clause of a
    suspended handler finds its connection in the room: neither the
    subscript nor [remove] raises. *)
Lemma system_ok_leave s ws room_id :
  system_ok s → handlers s !! ws = Some room_id →
  ∃ l rooms', rooms (world s) !! room_id = Some l ∧ ws ∈ l ∧
    leave (rooms (world s)) room_id ws = inr rooms' ∧
    registry_ok rooms' ∧ ¬ registered rooms' ws ∧
    (l = [ws] → rooms' !! room_id = None) ∧
    system_ok (mkSystem (mkWorld rooms' (out (world s)) (sends (world s)))
                        (delete ws (handlers s)) (created s)).
Proof.
  intros [Hreg Hmem Hcr Hch] Hws.
  destruct (Hmem _ _ Hws) as (l & Hl & Hin).
  destruct (registry_ok_leave _ _ _ _ Hreg Hl Hin)
    as (rooms' & Hlv & Hreg' & Hnot & Hlast & Hback & Hkeep).
  exists l, rooms'. split_and!; try done.
  split; simpl; [done|..].
  - intros ws' r Hws'. destruct (decide (ws' = ws)) as [->|Hne].
    + by rewrite lookup_delete_eq in Hws'.
    + rewrite lookup_delete_ne in Hws' by done.
      destruct (Hmem _ _ Hws') as (l' & Hl' & Hin'). eauto.
  - intros r m c Hm Hc. destruct (Hback _ _ _ Hm Hc) as (m0 & Hm0 & Hc0).
    eauto.
  - intros ws' r Hws'. destruct (decide (ws' = ws)) as [->|Hne].
    + by rewrite lookup_delete_eq in Hws'.
    + rewrite lookup_delete_ne in Hws' by done. eauto.
Qed.

(** A change of what was printed and sent does not matter to it, nor does
    the end of a handler that leaves the registry as it is. *)
Lemma system_ok_world s w' hs :
  system_ok s → rooms w' = rooms (world s) →
  (∀ ws r, hs !! ws = Some r → handlers s !! ws = Some r) →
  system_ok (mkSystem w' hs (created s)).
Proof.
  intros [Hreg Hmem Hcr Hch] Hrooms Hhs.
  split; simpl; rewrite ?Hrooms; eauto.
Qed.

Lemma system_ok_receive env s ws r :
  system_ok s → system_ok (step env s (Receive ws r)).
Proof.
  intros Hok. simpl.
  destruct (handlers s !! ws) as [room_id|] eqn:Hws; [|done].
  pose proof (iteration_rooms env room_id ws r (world s)) as Hrooms.
  destruct (iteration env room_id ws r (world s)) as [[e|[]] w1] eqn:Hit;
    simpl in Hrooms.
  - destruct (decide (e = WebSocketDisconnect)) as [->|He].
    + rewrite (try_body_disconnect _ _ _ _ _ Hit).
      destruct (system_ok_leave s ws room_id Hok Hws)
        as (l & rooms' & Hl & Hin & Hlv & _ & _ & _ & Hok').
      rewrite Hrooms, Hlv.
      eapply (system_ok_world _ _ _ Hok'); [done|]. by simpl.
    + rewrite (try_body_other _ _ _ _ _ _ Hit He).
      apply system_ok_world; [done..|].
      intros ws' r' H'. destruct (decide (ws' = ws)) as [->|Hne].
      * by rewrite lookup_delete_eq in H'.
      * by rewrite lookup_delete_ne in H'.
  - rewrite (try_body_returns _ _ _ _ _ Hit).
    by apply system_ok_world.
Qed.

Lemma system_ok_step env s a : system_ok s → system_ok (step env s a).
Proof.
  destruct a; [apply system_ok_connect | apply system_ok_receive].
Qed.

Lemma run_snoc env acts a :
  run env (acts ++ [a]) = step env (run env acts) a.
Proof. unfold run. by rewrite fold_left_app. Qed.

(** Every state the server can reach satisfies the invariant. *)
Lemma system_ok_run env acts : system_ok (run env acts).
Proof.
  induction acts as [|a acts IH] using rev_ind.
  - apply system_ok_init.
  - rewrite run_snoc. by apply system_ok_step.
Qed.

(** ** The coroutine and the server *)

Lemma receive_without_handler env s ws inbound :
  handlers s !! ws = None →
  fold_left (step env) (Receive ws <$> inbound) s = s.
Proof.
  intros Hws. induction inbound as [|r rest IH]; simpl; [done|].
  by rewrite Hws.
Qed.

(** The steps of the server for one connection are the turns of the loop of
    its handler: they leave the world the [try] statement leaves, and the
    handler stays suspended exactly when the loop is still running. *)
Lemma receive_steps env ws room_id inbound s :
  handlers s !! ws = Some room_id →
  ∃ st w',
    try_body room_id ws (receive_loop env room_id ws inbound) (world s)
      = (st, w') ∧
    fold_left (step env) (Receive ws <$> inbound) s =
      mkSystem w'
        (match st with
         | Joined => handlers s
         | _ => delete ws (handlers s)
         end)
        (created s).
Proof.
  revert s. induction inbound as [|r rest IH]; intros s Hws.
  - exists Joined, (world s). split; [done|]. by destruct s.
  - rewrite try_body_cons. simpl. rewrite Hws.
    destruct (try_body room_id ws (iteration env room_id ws r) (world s))
      as [st1 w1].
    destruct st1.
    + destruct (IH (mkSystem w1 (handlers s) (created s)) Hws)
        as (st & w' & Htry & Hrun).
      exists st, w'. by split.
    + eexists _, _. split; [done|].
      apply receive_without_handler. simpl. apply lookup_delete_eq.
    + eexists _, _. split; [done|].
      apply receive_without_handler. simpl. apply lookup_delete_eq.
Qed.

(** A server with a single client does what [websocket_endpoint] does. *)
Lemma endpoint_run env room_id inbound :
  world (run env (Connect room_id :: (Receive 0 <$> inbound))) =
    (websocket_endpoint env 0 room_id inbound init_world).2.
Proof.
  unfold run, websocket_endpoint. cbn [fold_left].
  destruct (receive_steps env 0 room_id inbound
              (step env init_system (Connect room_id)))
    as (st & w' & Htry & ->).
  { apply lookup_insert_eq. }
  simpl in *. by rewrite Htry.
Qed.

(** In every state the server can reach, a member list holds no connection
    twice. *)
Lemma run_members_NoDup env acts room_id members :
  rooms (world (run env acts)) !! room_id = Some members → NoDup members.
Proof. apply (ok_nodup _ (sys_registry _ (system_ok_run env acts))). Qed.

(** ** Scenarios *)

(** [X] then [Y] join [r1]; [X] sends a chat message: [Y] receives exactly
    that record and [X] receives nothing. *)
Example scenario_chat :
  let s := run all_sent
             [Connect "r1"; Connect "r1"; Receive X (inr chat_hi)] in
  received_by Y (out (world s)) = [chat_hi] ∧
  received_by X (out (world s)) = [] ∧
  rooms (world s) = {[ "r1" := [X; Y] ]}.
Proof. vm_compute. done. Qed.

(** [X] and [Y] are in [r1]; [X] disconnects: the room holds [Y] alone, and
    what [Y] sends next is delivered to nobody, without an error. *)
Example scenario_disconnect :
  let s1 := run all_sent
              [Connect "r1"; Connect "r1";
               Receive X (inl WebSocketDisconnect)] in
  let s2 := step all_sent s1 (Receive Y (inr chat_hi)) in
  rooms (world s1) = {[ "r1" := [Y] ]} ∧
  deliveries (out (world s2)) = [] ∧
  handlers s2 !! Y = Some "r1" ∧
  rooms (world s2) = {[ "r1" := [Y] ]}.
Proof. vm_compute. done. Qed.

(** The last member of a room disconnects: the room is gone. *)
Example scenario_last_member :
  rooms (world (run all_sent
                  [Connect "r1"; Receive X (inl WebSocketDisconnect)])) = ∅.
Proof. vm_compute. done. Qed.

(** A message without [type] is logged as unknown and relayed. *)
Example scenario_no_type :
  let s := run all_sent
             [Connect "r1"; Connect "r1"; Receive X (inr no_type)] in
  received_by Y (out (world s)) = [no_type] ∧
  printed (out (world s)) =
    [LogConnected "r1" 1; LogConnected "r1" 2; LogUnknown "r1" JNull] ∧
  handlers s !! X = Some "r1".
Proof. vm_compute. done. Qed.

(** ** The loop on the live list *)

Lemma next_other_recipients ws suffix i :
  match next_other ws suffix i with
  | None => recipients ws suffix = []
  | Some (client, i') =>
      ∃ k, i' = i + S k ∧
           recipients ws suffix = client :: recipients ws (drop (S k) suffix)
  end.
Proof.
  revert i. induction suffix as [|c rest IH]; intros i; simpl; [done|].
  unfold recipients in *. rewrite filter_cons. case_decide as Hc.
  - exists 0. split; [lia|]. by rewrite drop_0.
  - specialize (IH (S i)). destruct (next_other ws rest (S i)) as [[c' i']|].
    + destruct IH as (k & -> & Hrec). exists (S k). split; [lia|]. done.
    + done.
Qed.

(** When no handler changes the list while a send is pending, the loop on
    the live list makes the deliveries of the loop on the list as found. *)
Lemma live_fanout_quiet ws data during l i :
  Forall (λ changes, changes = []) during →
  live_fanout ws data during l i
    = (λ c, (c, data)) <$> recipients ws (drop i l).
Proof.
  intros Hquiet. revert i.
  induction Hquiet as [|changes rest -> _ IH]; intros i; [done|].
  simpl. pose proof (next_other_recipients ws (drop i l) i) as Hnext.
  destruct (next_other ws (drop i l) i) as [[c i']|].
  - destruct Hnext as (k & -> & ->). rewrite IH. simpl. do 3 f_equal.
    by rewrite drop_drop.
  - by rewrite Hnext.
Qed.

(** The broadcast of the handler, when no send raises, makes the deliveries
    of the loop on the live list during which nothing changes the list. *)
Lemma quiet_fanout_is_broadcast env room_id ws data w members during :
  rooms w !! room_id = Some members →
  (∀ i, i < length (recipients ws members) → env (sends w + i) = None) →
  Forall (λ changes, changes = []) during →
  deliveries (out (broadcast env room_id ws data w).2)
    = deliveries (out w) ++ live_fanout ws data during members 0.
Proof.
  intros Hroom Henv Hquiet.
  rewrite broadcast_unfold, Hroom, for_each_client_ok by done. simpl.
  rewrite deliveries_app, deliveries_Sent.
  by rewrite live_fanout_quiet, drop_0.
Qed.

(** [X], [Y] and [Z'] are in a room and [X] sends a message. While the send
    to [Y] is pending, the handler of [Y] takes [Y] out of the list: the
    iterator, at index 2, is past the end of the list [X; Z'], and [Z'],
    a member all along, is not sent the message, although no send failed. *)
Example leave_during_send_skips_member :
  live_fanout X chat_hi [[Leaves Y]] [X; Y; Z'] 0 = [(Y, chat_hi)] ∧
  live_fanout X chat_hi [[]] [X; Y; Z'] 0 = [(Y, chat_hi); (Z', chat_hi)].
Proof. split; reflexivity. Qed.

(** * The claims *)

(** ** Broadcast *)




(** C2, as stated, fails. [X], [Y] and [Z'] are in room [r1]; [X] sends two
    messages and the first [send_json], the one to [Y], raises. The fan-out
    stops there, so [Z'] receives nothing, and the exception ends the
    handler of [X]: the second message is never read. *)
Lemma send_failure_stops_fanout :
  let s := run (first_send_raises RuntimeError)
             (three_connect ++ [Receive X (inr chat_hi);
                                 Receive X (inr chat_hi)]) in
  rooms (world s) !! "r1" = Some [X; Y; Z'] ∧
  received_by Z' (out (world s)) = [] ∧
  deliveries (out (world s)) = [] ∧
  handlers s !! X = None ∧
  try_body "r1" X
    (receive_loop (first_send_raises RuntimeError) "r1" X
       [inr chat_hi; inr chat_hi]) three_in_r1
  = (Failed RuntimeError,
     mkWorld (rooms three_in_r1)
       [Print (LogReceived "r1" (JStr "chat") (JStr "X"))] 1).
Proof. vm_compute. done. Qed.

(** C2, amended. A message whose log line can be written is broadcast; no
    other connection joins or leaves the room during the broadcast (the
    fan-out runs on the member list as it found it). When the [k]-th send
    raises [e], the recipients before it have been sent the message and the
    failing recipient and those after it have not; the exception ends the
    receive loop of the sender. If [e] is [WebSocketDisconnect] the [except]
    clause runs for the sender, otherwise [e] leaves the handler with the
    registry as it was. *)
Theorem send_failure_ends_broadcast env room_id ws fields rest w members
    (k : nat) e :
  loggable (JObj fields) = true →
  rooms w !! room_id = Some members →
  k < length (recipients ws members) →
  (∀ i, i < k → env (sends w + i) = None) →
  env (sends w + k) = Some e →
  ∃ st w',
    try_body room_id ws
      (receive_loop env room_id ws (inr (JObj fields) :: rest)) w = (st, w') ∧
    st ≠ Joined ∧
    deliveries (out w') =
      deliveries (out w) ++
      ((λ c, (c, JObj fields)) <$> take k (recipients ws members)) ∧
    (e ≠ WebSocketDisconnect → st = Failed e ∧ rooms w' = rooms w) ∧
    (e = WebSocketDisconnect →
       match leave (rooms w) room_id ws with
       | inr rooms' => st = Removed ∧ rooms w' = rooms'
       | inl e' => st = Failed e' ∧ rooms w' = rooms w
       end).
Proof.
  intros Hlog Hroom Hk Hlt He.
  set (data := JObj fields) in *.
  set (w0 := mkWorld (rooms w)
    (out w ++ (Print <$> log_lines room_id data
                 (default JNull (dict_get "type" fields)))) (sends w)).
  assert (Hit : iteration env room_id ws (inr data) w =
    (inl e, mkWorld (rooms w)
       (out w0 ++ ((λ c, Sent c data) <$> take k (recipients ws members)))
       (sends w + S k))).
  { unfold data. rewrite iteration_object by done. fold data w0.
    rewrite broadcast_unfold. simpl. rewrite Hroom.
    by apply (for_each_client_raise env ws data members w0 k e). }
  assert (Hdel : ∀ evs,
    deliveries ((out w0 ++ ((λ c, Sent c data) <$>
                  take k (recipients ws members))) ++ (Print <$> evs)) =
    deliveries (out w) ++
      ((λ c, (c, data)) <$> take k (recipients ws members))).
  { intros evs. unfold w0. simpl.
    rewrite !deliveries_app, !deliveries_Print, deliveries_Sent.
    by rewrite !app_nil_r. }
  rewrite try_body_cons.
  destruct (decide (e = WebSocketDisconnect)) as [->|Hne].
  - rewrite (try_body_disconnect _ _ _ _ _ Hit). simpl.
    destruct (leave (rooms w) room_id ws) as [e'|rooms'] eqn:Hlv.
    + eexists _, _. split; [done|]. simpl.
      split_and!; [done | | done | by intros _].
      rewrite <- (Hdel []). simpl. by rewrite app_nil_r.
    + eexists _, _. split; [done|]. simpl.
      split_and!; [done | | done | by intros _].
      by rewrite <- (Hdel [LogDisconnected room_id]).
  - rewrite (try_body_other _ _ _ _ _ _ Hit Hne).
    eexists _, _. split; [done|]. simpl.
    split_and!; [done | | by intros _ | done].
    rewrite <- (Hdel []). simpl. by rewrite app_nil_r.
Qed.

Lemma send_failure_ends_broadcast_witness :
  ∃ st w',
    try_body "r1" X
      (receive_loop (first_send_raises WebSocketDisconnect) "r1" X
         [inr chat_hi; inr chat_hi]) three_in_r1 = (st, w') ∧
    st ≠ Joined ∧
    deliveries (out w') =
      deliveries (out three_in_r1) ++
      ((λ c, (c, chat_hi)) <$> take 0 (recipients X [X; Y; Z'])) ∧
    (WebSocketDisconnect ≠ WebSocketDisconnect →
       st = Failed WebSocketDisconnect ∧ rooms w' = rooms three_in_r1) ∧
    (WebSocketDisconnect = WebSocketDisconnect →
       match leave (rooms three_in_r1) "r1" X with
       | inr rooms' => st = Removed ∧ rooms w' = rooms'
       | inl e' => st = Failed e' ∧ rooms w' = rooms three_in_r1
       end).
Proof.
  apply (send_failure_ends_broadcast (first_send_raises WebSocketDisconnect)
           "r1" X _ [inr chat_hi] three_in_r1 [X; Y; Z'] 0
           WebSocketDisconnect).
  - reflexivity.
  - reflexivity.
  - vm_compute. lia.
  - intros i Hi. lia.
  - reflexivity.
Defined.

(** ** Leave *)

(** Lines 51-54 hold no guard: were they run for a connection that is in no
    room, they would raise ([KeyError] when the room has no entry,
    [ValueError] when it has one) and leave the registry unchanged. *)
Lemma leave_unregistered room_id ws w :
  ¬ registered (rooms w) ws →
  on_disconnect room_id ws w =
    (inl (match rooms w !! room_id with
         | Some _ => ValueError
         | None => KeyError
         end), w) ∧
  leave (rooms w) room_id ws =
    inl (match rooms w !! room_id with
         | Some _ => ValueError
         | None => KeyError
         end).
Proof.
  intros Hnot. unfold on_disconnect, leave.
  destruct (rooms w !! room_id) as [l|] eqn:Hl; [|done].
  assert (Hrm : list_remove ws l = None).
  { apply list_remove_None. intros Hin. apply Hnot. by exists room_id, l. }
  by rewrite Hrm.
Qed.

(** In the server the clause is never run for such a connection: a handler
    that is suspended in [receive_json] has its connection in its room. *)
Lemma suspended_handler_registered env acts ws room_id :
  handlers (run env acts) !! ws = Some room_id →
  registered (rooms (world (run env acts))) ws.
Proof.
  intros Hws. destruct (sys_member _ (system_ok_run env acts) _ _ Hws)
    as (l & Hl & Hin).
  by exists room_id, l.
Qed.


(** A connection that has left: its disconnect, signalled again, does
    nothing. *)
Example disconnect_twice :
  let s := run all_sent
             [Connect "r1"; Connect "r1";
              Receive X (inl WebSocketDisconnect)] in
  ¬ registered (rooms (world s)) X ∧
  step all_sent s (Receive X (inl WebSocketDisconnect)) = s.
Proof.
  intros s.
  assert (E : rooms (world s) = {[ "r1" := [Y] ]}) by (vm_compute; done).
  split; [|reflexivity].
  intros (r & l & Hl & Hin). rewrite E in Hl.
  apply lookup_singleton_Some in Hl as [_ <-].
  apply list_elem_of_singleton in Hin. done.
Qed.

(** C4, as stated, fails. A client connects to [r1] and sends text that is
    not JSON: [receive_json] raises [JSONDecodeError], which the [except]
    clause does not catch. The handler ends, nothing was removed, and the
    entry of the connection stays in the registry. *)
Lemma read_error_leaks_membership :
  ∃ w', websocket_endpoint all_sent X "r1" [inl JSONDecodeError] init_world
          = (Failed JSONDecodeError, w') ∧
        rooms w' !! "r1" = Some [X] ∧
        printed (out w') = [LogConnected "r1" 1].
Proof. eexists. vm_compute. done. Qed.

(** C4, amended. A handler suspended in [receive_json] whose next turn
    raises [WebSocketDisconnect], from [receive_json] itself or from a
    [send_json] of the broadcast, runs the [except] clause once: the clause
    returns, the connection is in no room afterwards, the handler is gone
    and nothing more happens for that connection. *)
Theorem disconnect_leaves_once env acts ws room_id r w1 :
  handlers (run env acts) !! ws = Some room_id →
  iteration env room_id ws r (world (run env acts))
    = (inl WebSocketDisconnect, w1) →
  let s' := step env (run env acts) (Receive ws r) in
  on_disconnect room_id ws w1 = (inr tt, world s') ∧
  printed (out (world s')) = printed (out w1) ++ [LogDisconnected room_id] ∧
  ¬ registered (rooms (world s')) ws ∧
  handlers s' !! ws = None ∧
  (∀ r', step env s' (Receive ws r') = s').
Proof.
  intros Hws Hit s'. set (s := run env acts) in *.
  pose proof (system_ok_run env acts) as Hok. fold s in Hok.
  destruct (system_ok_leave s ws room_id Hok Hws)
    as (l & rooms' & Hl & Hin & Hlv & _ & Hnot & _ & _).
  pose proof (iteration_rooms env room_id ws r (world s)) as Hrooms.
  rewrite Hit in Hrooms. simpl in Hrooms.
  assert (Hs' : s' = mkSystem
    (mkWorld rooms' (out w1 ++ [Print (LogDisconnected room_id)]) (sends w1))
    (delete ws (handlers s)) (created s)).
  { unfold s'. simpl. rewrite Hws.
    rewrite (try_body_disconnect _ _ _ _ _ Hit), Hrooms, Hlv. done. }
  rewrite Hs'. simpl. split_and!.
  - unfold on_disconnect. by rewrite Hrooms, Hlv.
  - by rewrite printed_app.
  - done.
  - apply lookup_delete_eq.
  - intros r'. by rewrite lookup_delete_eq.
Qed.

Lemma disconnect_leaves_once_witness :
  let s' := step all_sent (run all_sent three_connect)
              (Receive Y (inl WebSocketDisconnect)) in
  on_disconnect "r1" Y (world (run all_sent three_connect))
    = (inr tt, world s') ∧
  printed (out (world s')) =
    printed (out (world (run all_sent three_connect)))
      ++ [LogDisconnected "r1"] ∧
  ¬ registered (rooms (world s')) Y ∧
  handlers s' !! Y = None ∧
  (∀ r', step all_sent s' (Receive Y r') = s').
Proof.
  apply (disconnect_leaves_once all_sent three_connect Y "r1"
           (inl WebSocketDisconnect)).
  - vm_compute. reflexivity.
  - reflexivity.
Defined.

(** C5, as stated, fails. [X] connects to [r1] and sends text that is not
    JSON, which ends its handler with [JSONDecodeError]; then [X]
    disconnects. [X] was registered when it disconnected and is still a
    member of [r1] afterwards, and the room keeps its entry although no
    client is left in it. *)
Lemma dead_member_survives_disconnect :
  let s := run all_sent [Connect "r1"; Receive X (inl JSONDecodeError)] in
  let s' := step all_sent s (Receive X (inl WebSocketDisconnect)) in
  registered (rooms (world s)) X ∧
  registered (rooms (world s')) X ∧
  rooms (world s') !! "r1" = Some [X] ∧
  handlers s' !! X = None.
Proof.
  assert (Hreg : registered {[ "r1" := [X] ]} X).
  { exists "r1", [X]. split; [done|]. by apply list_elem_of_singleton. }
  split_and!; [exact Hreg | exact Hreg | reflexivity | reflexivity].
Qed.

(** C5, amended. A connection whose handler is still suspended in
    [receive_json] disconnects: afterwards the connection is a member of no
    room; if it was the only member of its room, the room has no entry any
    more; and no room of the registry is empty. The other members of the
    room stay. *)
Theorem disconnect_removes_member env acts ws room_id :
  handlers (run env acts) !! ws = Some room_id →
  let s := run env acts in
  let s' := step env s (Receive ws (inl WebSocketDisconnect)) in
  leave (rooms (world s)) room_id ws = inr (rooms (world s')) ∧
  ¬ registered (rooms (world s')) ws ∧
  (rooms (world s) !! room_id = Some [ws] →
     rooms (world s') !! room_id = None) ∧
  (∀ r l, rooms (world s') !! r = Some l → l ≠ []) ∧
  (∀ r l c, rooms (world s) !! r = Some l → c ∈ l → c ≠ ws →
     ∃ l', rooms (world s') !! r = Some l' ∧ c ∈ l').
Proof.
  intros Hws s s'. fold s in Hws.
  pose proof (system_ok_run env acts) as Hok. fold s in Hok.
  destruct (sys_member _ Hok _ _ Hws) as (l & Hl & Hin).
  destruct (registry_ok_leave _ _ _ _ (sys_registry _ Hok) Hl Hin)
    as (rooms' & Hlv & Hreg' & Hnot & Hlast & _ & Hkeep).
  assert (Hs' : rooms (world s') = rooms').
  { unfold s'. simpl. rewrite Hws.
    rewrite (try_body_disconnect _ _ _ _ _
               (iteration_raise env room_id ws WebSocketDisconnect (world s))).
    by rewrite Hlv. }
  rewrite Hs'. split_and!; [done | done | | |].
  - intros Hl'. apply Hlast. congruence.
  - apply (ok_nonempty _ Hreg').
  - intros r l0 c. apply Hkeep.
Qed.

Lemma disconnect_removes_member_witness :
  let s := run all_sent [Connect "r1"] in
  let s' := step all_sent s (Receive X (inl WebSocketDisconnect)) in
  leave (rooms (world s)) "r1" X = inr (rooms (world s')) ∧
  ¬ registered (rooms (world s')) X ∧
  (rooms (world s) !! "r1" = Some [X] → rooms (world s') !! "r1" = None) ∧
  (∀ r l, rooms (world s') !! r = Some l → l ≠ []) ∧
  (∀ r l c, rooms (world s) !! r = Some l → c ∈ l → c ≠ X →
     ∃ l', rooms (world s') !! r = Some l' ∧ c ∈ l').
Proof.
  apply (disconnect_removes_member all_sent [Connect "r1"] X "r1").
  vm_compute. reflexivity.
Defined.

(** ** Malformed payloads and classification *)

(** C6, as stated, fails. [X] and [Y] are in room [r1]. Text from [X] that
    is not JSON makes [receive_json] raise [JSONDecodeError], and JSON that
    is not an object makes [data.get] raise [AttributeError]: either ends
    the handler of [X], so that what [X] sends next reaches nobody. *)
Lemma malformed_payload_ends_handler :
  let two := [Connect "r1"; Connect "r1"] in
  let s1 := run all_sent
              (two ++ [Receive X (inl JSONDecodeError);
                       Receive X (inr chat_hi)]) in
  let s2 := run all_sent
              (two ++ [Receive X (inr (JArr [JStr "hi"]));
                       Receive X (inr chat_hi)]) in
  handlers s1 !! X = None ∧ received_by Y (out (world s1)) = [] ∧
  handlers s2 !! X = None ∧ received_by Y (out (world s2)) = [] ∧
  try_body "r1" X (iteration all_sent "r1" X (inl JSONDecodeError)) two_in_r1
    = (Failed JSONDecodeError, two_in_r1) ∧
  try_body "r1" X (iteration all_sent "r1" X (inr (JArr [JStr "hi"])))
    two_in_r1 = (Failed AttributeError, two_in_r1).
Proof. vm_compute. done. Qed.

(** C6, amended. A message that is an object without a [type] field is
    not ended by its lack of [type]: it is classified unknown, logged as
    such, and handed to the broadcast like any other message. When no send
    raises and no other connection joins or leaves the room during the
    broadcast (the fan-out runs on the member list as it found it), every
    other member is sent it and the handler goes on to the next
    [receive_json]. A payload that [receive_json] cannot parse, or that is
    not an object, ends the handler with the exception raised, and nothing
    is relayed. *)
Theorem missing_type_is_relayed env room_id ws w :
  (∀ fields, dict_get "type" fields = None →
     classify (default JNull (dict_get "type" fields)) = unknown ∧
     iteration env room_id ws (inr (JObj fields)) w =
       broadcast env room_id ws (JObj fields)
         (mkWorld (rooms w)
            (out w ++ [Print (LogUnknown room_id JNull)]) (sends w)) ∧
     (∀ members, rooms w !! room_id = Some members →
        (∀ i, i < length (recipients ws members) →
              env (sends w + i) = None) →
        try_body room_id ws
          (iteration env room_id ws (inr (JObj fields))) w =
          (Joined,
           mkWorld (rooms w)
             ((out w ++ [Print (LogUnknown room_id JNull)]) ++
              ((λ c, Sent c (JObj fields)) <$> recipients ws members))
             (sends w + length (recipients ws members))))) ∧
  (∀ e, e ≠ WebSocketDisconnect →
     try_body room_id ws (iteration env room_id ws (inl e)) w
       = (Failed e, w)) ∧
  (∀ data, ¬ is_object data →
     try_body room_id ws (iteration env room_id ws (inr data)) w
       = (Failed AttributeError, w)).
Proof.
  split_and!.
  - intros fields Hty.
    assert (Hit : iteration env room_id ws (inr (JObj fields)) w =
      broadcast env room_id ws (JObj fields)
        (mkWorld (rooms w)
           (out w ++ [Print (LogUnknown room_id JNull)]) (sends w))).
    { assert (Hcl : classify (default JNull (dict_get "type" fields))
                    = unknown) by (by rewrite Hty).
      rewrite iteration_object.
      - rewrite (log_lines_unknown _ _ _ Hcl). by rewrite Hty.
      - rewrite (loggable_unknown _ Hcl). by rewrite Hty. }
    split_and!; [by rewrite Hty | done |].
    intros members Hroom Henv. apply try_body_returns.
    rewrite Hit, broadcast_unfold. simpl. rewrite Hroom.
    by rewrite for_each_client_ok.
  - intros e He. by apply try_body_other.
  - intros data Hdata. apply try_body_other; [|done].
    by apply iteration_not_object.
Qed.

(** C7, as stated, fails. Two messages from [X] in room [r1] differ only
    in their [type]: a lone surrogate for the one, ["offer"] for the other.
    The first is of unknown type and its log line cannot be written, so
    [print] raises before the broadcast and nobody receives it; the second
    is relayed to [Y] and [Z']. *)
Lemma unprintable_type_is_not_relayed :
  let '(r1, w1) := iteration all_sent "r1" X (inr surrogate_hi) three_in_r1 in
  let '(r2, w2) := iteration all_sent "r1" X (inr offer_hi) three_in_r1 in
  classify (JStr lone_d800) = unknown ∧
  r1 = inl UnicodeEncodeError ∧ deliveries (out w1) = [] ∧
  r2 = inr tt ∧ deliveries (out w2) = [(Y, offer_hi); (Z', offer_hi)].
Proof. vm_compute. done. Qed.

(** C7, amended. Two messages that differ only in the value of their [type]
    field and whose log lines can both be written, relayed from the same
    state with the same outcomes of the sends, in broadcasts during which
    no other connection joins or leaves the room: the result of the turn,
    the registry, the number of sends and the recipients are the same, and
    each recipient is sent the message as received. (Only the lines printed
    may differ.) *)
Theorem type_does_not_affect_relay env room_id ws before after t1 t2 w :
  let d1 := JObj (before ++ ("type", t1) :: after) in
  let d2 := JObj (before ++ ("type", t2) :: after) in
  loggable d1 = true →
  loggable d2 = true →
  ∃ r w1 w2 rcp,
    iteration env room_id ws (inr d1) w = (r, w1) ∧
    iteration env room_id ws (inr d2) w = (r, w2) ∧
    rooms w1 = rooms w ∧ rooms w2 = rooms w ∧
    sends w1 = sends w2 ∧
    deliveries (out w1) = deliveries (out w) ++ ((λ c, (c, d1)) <$> rcp) ∧
    deliveries (out w2) = deliveries (out w) ++ ((λ c, (c, d2)) <$> rcp) ∧
    (∀ c, c ∈ rcp → c ≠ ws ∧
       ∃ members, rooms w !! room_id = Some members ∧ c ∈ members).
Proof.
  intros d1 d2 Hlog1 Hlog2. unfold d1, d2 in *.
  rewrite !iteration_object by done.
  rewrite !broadcast_unfold. simpl.
  destruct (rooms w !! room_id) as [members|] eqn:Hroom.
  - set (l1 := log_lines _ _ _). set (l2 := log_lines _ _ _).
    set (w1 := mkWorld _ (out w ++ (Print <$> l1)) _).
    set (w2 := mkWorld _ (out w ++ (Print <$> l2)) _).
    assert (Hsub : ∀ (k : nat) c, c ∈ take k (recipients ws members) →
      c ≠ ws ∧ ∃ members0, Some members = Some members0 ∧ c ∈ members0).
    { intros k c Hc. apply (subseteq_take k) in Hc.
      apply elem_of_recipients in Hc as [Hc Hne]. eauto. }
    destruct (first_raise env (sends w) (length (recipients ws members)))
      as [Hok|(k & e & Hk & Hlt & He)].
    + rewrite (for_each_client_ok env ws _ members w1) by done.
      rewrite (for_each_client_ok env ws _ members w2) by done.
      eexists _, _, _, (recipients ws members). subst w1 w2. simpl.
      split_and!; try done.
      * by norm_deliveries.
      * by norm_deliveries.
      * intros c Hc. apply (Hsub (length (recipients ws members))).
        by rewrite firstn_all.
    + rewrite (for_each_client_raise env ws _ members w1 k e) by done.
      rewrite (for_each_client_raise env ws _ members w2 k e) by done.
      eexists _, _, _, (take k (recipients ws members)). subst w1 w2. simpl.
      split_and!; try done.
      * by norm_deliveries.
      * by norm_deliveries.
      * apply Hsub.
  - eexists _, _, _, []. simpl. split_and!; try done.
    + by norm_deliveries.
    + by norm_deliveries.
    + intros c Hc. by apply elem_of_nil in Hc.
Qed.

Lemma type_does_not_affect_relay_witness :
  ∃ r w1 w2 rcp,
    iteration all_sent "r1" X (inr chat_hi) three_in_r1 = (r, w1) ∧
    iteration all_sent "r1" X (inr offer_hi) three_in_r1 = (r, w2) ∧
    rooms w1 = rooms three_in_r1 ∧ rooms w2 = rooms three_in_r1 ∧
    sends w1 = sends w2 ∧
    deliveries (out w1) =
      deliveries (out three_in_r1) ++ ((λ c, (c, chat_hi)) <$> rcp) ∧
    deliveries (out w2) =
      deliveries (out three_in_r1) ++ ((λ c, (c, offer_hi)) <$> rcp) ∧
    (∀ c, c ∈ rcp → c ≠ X ∧
       ∃ members, rooms three_in_r1 !! "r1" = Some members ∧ c ∈ members).
Proof.
  apply (type_does_not_affect_relay all_sent "r1" X []
           [("sender", JStr "X"); ("text", JStr "hi")]
           (JStr "chat") (JStr "offer") three_in_r1).
  - reflexivity.
  - reflexivity.
Defined.

Example offer_relayed_like_chat :
  let '(r1, w1) := iteration all_sent "r1" X (inr chat_hi) three_in_r1 in
  let '(r2, w2) := iteration all_sent "r1" X (inr offer_hi) three_in_r1 in
  r1 = inr tt ∧ r2 = inr tt ∧
  deliveries (out w1) = [(Y, chat_hi); (Z', chat_hi)] ∧
  deliveries (out w2) = [(Y, offer_hi); (Z', offer_hi)] ∧
  printed (out w1) = [LogReceived "r1" (JStr "chat") (JStr "X")] ∧
  printed (out w2) = [].
Proof. vm_compute. done. Qed.



(** ** Join *)

(** C8. Join never raises. A room without an entry gets one, holding the
    connection alone, and the registry has one entry more; a room with an
    entry keeps it, with the connection appended to its member list, and the
    registry has as many entries as before. In both cases the member count
    of the room, which is the count printed, goes up by exactly one, and the
    other rooms are as they were. *)
Theorem join_appends room_id ws w :
  on_connect room_id ws w =
    (inr tt,
     mkWorld (join (rooms w) room_id ws)
       (out w ++ [Print (LogConnected room_id
                           (S (member_count (rooms w) room_id)))])
       (sends w)) ∧
  (rooms w !! room_id = None →
     join (rooms w) room_id ws = <[room_id := [ws]]> (rooms w) ∧
     size (join (rooms w) room_id ws) = S (size (rooms w))) ∧
  (∀ members, rooms w !! room_id = Some members →
     join (rooms w) room_id ws = <[room_id := members ++ [ws]]> (rooms w) ∧
     size (join (rooms w) room_id ws) = size (rooms w)) ∧
  member_count (join (rooms w) room_id ws) room_id =
    S (member_count (rooms w) room_id) ∧
  (∀ r, r ≠ room_id → join (rooms w) room_id ws !! r = rooms w !! r).
Proof.
  assert (Hcount : member_count (join (rooms w) room_id ws) room_id =
                   S (member_count (rooms w) room_id)).
  { unfold member_count. rewrite join_lookup. simpl.
    rewrite length_app. simpl. lia. }
  split_and!.
  - unfold on_connect, print. simpl. by rewrite Hcount.
  - intros Hnone. rewrite join_insert, Hnone. simpl.
    split; [done|]. by apply map_size_insert_None.
  - intros members Hsome. rewrite join_insert, Hsome. simpl.
    split; [done|]. by apply map_size_insert_Some.
  - done.
  - intros r Hr. by apply join_lookup_ne.
Qed.

Example join_abc_twice :
  rooms (world (run all_sent [Connect "abc"])) = {[ "abc" := [X] ]} ∧
  rooms (world (run all_sent [Connect "abc"; Connect "abc"]))
    = {[ "abc" := [X; Y] ]} ∧
  printed (out (world (run all_sent [Connect "abc"; Connect "abc"])))
    = [LogConnected "abc" 1; LogConnected "abc" 2].
Proof. vm_compute. done. Qed.

(** ** A connection alone in its room *)

(** C9. When the sender is the only member of its room, the broadcast
    calls [send_json] on nobody and returns, with the world as it was; the
    turn of the loop for a message that is an object and whose log line can
    be written returns too, delivers nothing, and leaves the room holding
    exactly the sender. (When the line cannot be written, [print] raises
    before the broadcast and the world is as it was.) *)
Theorem alone_broadcast_is_silent env room_id ws data w :
  rooms w !! room_id = Some [ws] →
  broadcast env room_id ws data w = (inr tt, w) ∧
  (is_object data → loggable data = true →
   ∃ w', try_body room_id ws (iteration env room_id ws (inr data)) w
           = (Joined, w') ∧
         rooms w' = rooms w ∧
         rooms w' !! room_id = Some [ws] ∧
         deliveries (out w') = deliveries (out w) ∧
         sends w' = sends w) ∧
  (is_object data → loggable data = false →
   try_body room_id ws (iteration env room_id ws (inr data)) w
     = (Failed UnicodeEncodeError, w)).
Proof.
  intros Hroom.
  assert (Hb : ∀ w0, rooms w0 = rooms w →
    broadcast env room_id ws data w0 = (inr tt, w0)).
  { intros w0 Hw0. rewrite broadcast_unfold, Hw0, Hroom.
    rewrite for_each_client_cons. by rewrite decide_False by tauto. }
  split_and!; [by apply Hb | |].
  - intros Hobj Hlog. destruct data as [| | | | | |fields]; try done.
    eexists. split.
    + apply try_body_returns. rewrite iteration_object by done.
      by apply Hb.
    + split_and!; [done | done | by norm_deliveries | done].
  - intros Hobj Hlog. destruct data as [| | | | | |fields]; try done.
    apply try_body_other; [|done]. by apply iteration_unloggable.
Qed.

Lemma alone_broadcast_is_silent_witness :
  broadcast all_sent "r1" X chat_hi alone_in_r1 = (inr tt, alone_in_r1) ∧
  (is_object chat_hi → loggable chat_hi = true →
   ∃ w', try_body "r1" X (iteration all_sent "r1" X (inr chat_hi))
           alone_in_r1 = (Joined, w') ∧
         rooms w' = rooms alone_in_r1 ∧
         rooms w' !! "r1" = Some [X] ∧
         deliveries (out w') = deliveries (out alone_in_r1) ∧
         sends w' = sends alone_in_r1) ∧
  (is_object chat_hi → loggable chat_hi = false →
   try_body "r1" X (iteration all_sent "r1" X (inr chat_hi)) alone_in_r1
     = (Failed UnicodeEncodeError, alone_in_r1)).
Proof.
  apply (alone_broadcast_is_silent all_sent "r1" X chat_hi alone_in_r1).
  reflexivity.
Defined.

(** * Further properties of the registry and the relay *)

(** ** [list.remove], [join] and [leave] *)

(** [remove] takes out the first occurrence and keeps the rest in order. *)
Lemma list_remove_split ws l l' :
  list_remove ws l = Some l' ↔
  ∃ l1 l2, l = l1 ++ ws :: l2 ∧ (ws ∉ l1) ∧ l' = l1 ++ l2.
Proof.
  revert l'. induction l as [|c l IH]; intros l'; simpl.
  - split; [done|]. intros (l1 & l2 & Hl & _). by destruct l1.
  - case_decide as Hc.
    + subst c. split.
      * intros [= <-]. exists [], l. split_and!; [done | | done].
        apply not_elem_of_nil.
      * intros (l1 & l2 & Hl & Hnot & ->). destruct l1 as [|c1 l1].
        -- simpl in Hl. by simplify_eq.
        -- simpl in Hl. injection Hl as <- _.
           exfalso. apply Hnot. left.
    + destruct (list_remove ws l) as [l0|] eqn:E; simpl.
      * split.
        -- intros [= <-]. destruct (proj1 (IH l0) eq_refl)
             as (l1 & l2 & -> & Hnot & ->).
           exists (c :: l1), l2. split_and!; [done | | done].
           rewrite not_elem_of_cons. split; [congruence | done].
        -- intros (l1 & l2 & Hl & Hnot & ->). destruct l1 as [|c1 l1].
           ++ simpl in Hl. injection Hl as -> _. done.
           ++ simpl in Hl. injection Hl as <- ->.
              apply not_elem_of_cons in Hnot as [_ Hnot].
              f_equal. simpl. f_equal.
              assert (Some l0 = Some (l1 ++ l2)) as [= ->]; [|done].
              apply IH. by exists l1, l2.
      * split; [done|].
        intros (l1 & l2 & Hl & Hnot & ->). destruct l1 as [|c1 l1].
        -- simpl in Hl. injection Hl as -> _. done.
        -- simpl in Hl. injection Hl as <- ->.
           apply not_elem_of_cons in Hnot as [_ Hnot].
           assert (None = Some (l1 ++ l2)) as [=].
           apply IH. by exists l1, l2.
Qed.

Lemma list_remove_last ws l : ws ∉ l → list_remove ws (l ++ [ws]) = Some l.
Proof.
  intros Hnot. apply list_remove_split. exists l, [].
  by rewrite app_nil_r.
Qed.

Lemma received_by_app c evs1 evs2 :
  received_by c (evs1 ++ evs2) = received_by c evs1 ++ received_by c evs2.
Proof. apply omap_app. Qed.

Lemma received_by_Print c lines : received_by c (Print <$> lines) = [].
Proof. induction lines; simpl; done. Qed.

(** X1. In every state the server can reach, whatever the clients send and
    whatever the sends do: no room of the registry is empty, no member list
    holds a connection twice, no connection is in two rooms, and the
    connection of every suspended handler is in the room the handler was
    started for. *)
Theorem reachable_registry_invariant env acts :
  let s := run env acts in
  (∀ r l, rooms (world s) !! r = Some l → l ≠ []) ∧
  (∀ r l, rooms (world s) !! r = Some l → NoDup l) ∧
  (∀ r1 r2 l1 l2 ws, rooms (world s) !! r1 = Some l1 →
     rooms (world s) !! r2 = Some l2 → ws ∈ l1 → ws ∈ l2 → r1 = r2) ∧
  (∀ ws room_id, handlers s !! ws = Some room_id →
     ∃ l, rooms (world s) !! room_id = Some l ∧ ws ∈ l).
Proof.
  intros s. destruct (system_ok_run env acts) as [[Hne Hnd Hone] Hmem _ _].
  by split_and!.
Qed.

(** X2. Join followed by leave is the identity on the registry: for a
    connection that is not yet in the room, and a room that is absent or
    not empty, leaving right after joining gives back the registry as it
    was; a handler whose first [receive_json] raises [WebSocketDisconnect]
    ends with the registry it started from. *)
Theorem join_then_leave rs room_id ws :
  rs !! room_id ≠ Some [] →
  ws ∉ default [] (rs !! room_id) →
  leave (join rs room_id ws) room_id ws = inr rs ∧
  ∀ env out0 sends0,
    ∃ w', websocket_endpoint env ws room_id [inl WebSocketDisconnect]
            (mkWorld rs out0 sends0) = (Removed, w') ∧
          rooms w' = rs.
Proof.
  intros Hne Hnot.
  assert (Hlv : leave (join rs room_id ws) room_id ws = inr rs).
  { destruct (rs !! room_id) as [l|] eqn:Hl; simpl in Hnot.
    - rewrite (leave_Some _ _ _ (l ++ [ws]) l);
        [| by rewrite join_lookup, Hl | by apply list_remove_last].
      rewrite decide_False by congruence.
      rewrite join_insert, Hl. cbn [default].
      rewrite insert_insert_eq. by rewrite insert_id.
    - rewrite (leave_Some _ _ _ ([] ++ [ws]) []);
        [| by rewrite join_lookup, Hl | by apply list_remove_last].
      rewrite decide_True by done.
      rewrite join_insert, Hl. cbn [default].
      rewrite delete_insert_eq. by rewrite delete_id. }
  split; [done|]. intros env out0 sends0.
  unfold websocket_endpoint, on_connect, print. simpl.
  eexists. split.
  - rewrite (try_body_disconnect _ _ _ _ _ eq_refl). simpl. by rewrite Hlv.
  - done.
Qed.

Lemma join_then_leave_witness :
  leave (join {[ "r1" := [X] ]} "r1" Y) "r1" Y = inr {[ "r1" := [X] ]} ∧
  ∀ env out0 sends0,
    ∃ w', websocket_endpoint env Y "r1" [inl WebSocketDisconnect]
            (mkWorld {[ "r1" := [X] ]} out0 sends0) = (Removed, w') ∧
          rooms w' = {[ "r1" := [X] ]}.
Proof.
  apply (join_then_leave {[ "r1" := [X] ]} "r1" Y).
  - vm_compute. discriminate.
  - vm_compute. intros H. by apply list_elem_of_In in H as [|[]].
Defined.

(** X3. A leave that succeeds takes the first occurrence of the connection
    out of the member list of its room and keeps the other members in their
    order; the entry of the room is deleted exactly when nobody is left; all
    other rooms are as they were. *)
Theorem leave_frame rs room_id ws rs' :
  leave rs room_id ws = inr rs' →
  (∃ before after,
     rs !! room_id = Some (before ++ ws :: after) ∧ (ws ∉ before) ∧
     rs' !! room_id =
       (if decide (before ++ after = []) then None
        else Some (before ++ after))) ∧
  (∀ r, r ≠ room_id → rs' !! r = rs !! r).
Proof.
  intros Hlv. split.
  - destruct (leave_inr _ _ _ _ Hlv) as (l & l' & Hl & Hrm & ->).
    apply list_remove_split in Hrm as (l1 & l2 & -> & Hnot & ->).
    exists l1, l2. split_and!; [done..|]. case_decide.
    + by rewrite lookup_delete_eq.
    + by rewrite lookup_insert_eq.
  - intros r Hr. by apply (leave_lookup_ne rs room_id ws).
Qed.

Lemma leave_frame_witness :
  (∃ before after,
     ({[ "r1" := [X; Y; Z'] ]} : Rooms) !! "r1"
       = Some (before ++ Y :: after) ∧ (Y ∉ before) ∧
     ({[ "r1" := [X; Z'] ]} : Rooms) !! "r1" =
       (if decide (before ++ after = []) then None
        else Some (before ++ after))) ∧
  (∀ r, r ≠ "r1" →
     ({[ "r1" := [X; Z'] ]} : Rooms) !! r
       = ({[ "r1" := [X; Y; Z'] ]} : Rooms) !! r).
Proof.
  apply (leave_frame {[ "r1" := [X; Y; Z'] ]} "r1" Y {[ "r1" := [X; Z'] ]}).
  vm_compute. reflexivity.
Defined.

(** ** What a handler does to the registry *)

Lemma try_body_rooms room_id ws (body : M unit) w :
  rooms (body w).2 = rooms w →
  ∃ st w', try_body room_id ws body w = (st, w') ∧
    ((st = Removed ∧ leave (rooms w) room_id ws = inr (rooms w')) ∨
     (st ≠ Removed ∧ rooms w' = rooms w)).
Proof.
  intros Hrooms. unfold try_body, on_disconnect.
  destruct (body w) as [[e|[]] w1]; simpl in Hrooms.
  - destruct e; try (eexists _, _; split; [done|]; by right).
    rewrite Hrooms.
    destruct (leave (rooms w) room_id ws) as [e|rooms'] eqn:Hlv.
    + eexists _, _. split; [done|]. by right.
    + eexists _, _. split; [done|]. by left.
  - eexists _, _. split; [done|]. by right.
Qed.

Lemma step_rooms env s a :
  match a with
  | Connect room_id =>
      rooms (world (step env s a)) = join (rooms (world s)) room_id (created s)
  | Receive ws r =>
      rooms (world (step env s a)) = rooms (world s) ∨
      ∃ room_id, handlers s !! ws = Some room_id ∧
        leave (rooms (world s)) room_id ws
          = inr (rooms (world (step env s a)))
  end.
Proof.
  destruct a as [room_id|ws r]; simpl; [done|].
  destruct (handlers s !! ws) as [room_id|] eqn:Hws; [|by left].
  destruct (try_body_rooms room_id ws (iteration env room_id ws r) (world s)
              (iteration_rooms env room_id ws r (world s)))
    as (st & w' & -> & [[-> Hlv]|[Hst Hrooms]]).
  - right. exists room_id. by split.
  - left. by destruct st.
Qed.

(** X4. The run of a handler, whatever it receives and whatever the sends
    do, writes to the registry at most once: if it ends in the [except]
    clause the registry is the result of one leave of its connection, and
    if it is still suspended or ended by another exception the registry is
    exactly as the handler found it. Messages never change the registry. *)
Theorem handler_registry_effect env room_id ws inbound w :
  ∃ st w',
    try_body room_id ws (receive_loop env room_id ws inbound) w = (st, w') ∧
    match st with
    | Removed => leave (rooms w) room_id ws = inr (rooms w')
    | Joined | Failed _ => rooms w' = rooms w
    end.
Proof.
  destruct (try_body_rooms room_id ws (receive_loop env room_id ws inbound) w
              (receive_loop_rooms env room_id ws inbound w))
    as (st & w' & Htry & [[-> Hlv]|[Hst Hrooms]]).
  - by exists Removed, w'.
  - exists st, w'. split; [done|]. by destruct st.
Qed.

(** ** Member lists and the order of connection *)

Lemma sorted_step env s a :
  system_ok s →
  (∀ r (l : list WebSocket),
     rooms (world s) !! r = Some l → StronglySorted lt l) →
  ∀ r (l : list WebSocket),
    rooms (world (step env s a)) !! r = Some l → StronglySorted lt l.
Proof.
  intros Hok Hsorted r l. pose proof (step_rooms env s a) as Hstep.
  destruct a as [room_id|ws msg].
  - rewrite Hstep. destruct (decide (r = room_id)) as [->|Hr].
    + rewrite join_lookup. intros [= <-].
      apply StronglySorted_app_2.
      * intros c1 c2 Hc1 ->%list_elem_of_singleton.
        destruct (rooms (world s) !! room_id) as [l0|] eqn:Hl0;
          simpl in Hc1; [|by apply elem_of_nil in Hc1].
        apply (sys_created_reg _ Hok _ _ _ Hl0 Hc1).
      * destruct (rooms (world s) !! room_id) as [l0|] eqn:Hl0; simpl;
          [eauto | constructor].
      * repeat constructor.
    + rewrite join_lookup_ne by done. eauto.
  - destruct Hstep as [->|(room_id & Hws & Hlv)]; [eauto|].
    destruct (leave_frame _ _ _ _ Hlv)
      as [(l1 & l2 & Hold & _ & Hnew) Hother].
    destruct (decide (r = room_id)) as [->|Hr].
    + rewrite Hnew. case_decide; [done|]. intros [= <-].
      specialize (Hsorted _ _ Hold).
      apply StronglySorted_app in Hsorted as (Hlt & H1 & H2).
      apply StronglySorted_cons in H2 as [_ H2].
      apply StronglySorted_app_2; [|done..].
      intros c1 c2 Hc1 Hc2. apply Hlt; [done|]. by right.
    + rewrite Hother by done. eauto.
Qed.

(** X5. In every state the server can reach, the members of a room are
    listed in the order in which they connected (connection objects are
    numbered in order of creation). Since the broadcast loop follows the
    list, the recipients of a message are served in that order. *)
Theorem members_in_join_order env acts room_id
    (members : list WebSocket) :
  rooms (world (run env acts)) !! room_id = Some members →
  StronglySorted lt members.
Proof.
  revert room_id members.
  induction acts as [|a acts IH] using rev_ind; intros room_id members.
  - unfold run. simpl. by rewrite lookup_empty.
  - rewrite run_snoc. apply sorted_step; [apply system_ok_run | done].
Qed.

Lemma members_in_join_order_witness :
  StronglySorted lt [Y; Z'].
Proof.
  apply (members_in_join_order all_sent
           (three_connect ++ [Receive X (inl WebSocketDisconnect)])
           "r1" [Y; Z']).
  vm_compute. reflexivity.
Defined.

(** ** The order of the messages of one sender *)

(** One turn of the loop, seen from each connection: a connection that is
    not a recipient gets nothing, a recipient gets the message once, or not
    at all when the turn raises. *)
Lemma iteration_received env room_id ws msg w members :
  rooms w !! room_id = Some members → NoDup members →
  ∃ r w1,
    iteration env room_id ws (inr msg) w = (r, w1) ∧
    rooms w1 = rooms w ∧
    (∀ c, c ∉ recipients ws members →
       received_by c (out w1) = received_by c (out w)) ∧
    (∀ c, c ∈ recipients ws members →
       received_by c (out w1) = received_by c (out w) ++ [msg] ∨
       (r ≠ inr tt ∧ received_by c (out w1) = received_by c (out w))).
Proof.
  intros Hroom Hnd.
  assert (Hobj : is_object msg ∨ ¬ is_object msg).
  { destruct msg; simpl; tauto. }
  assert (Hraise : ∀ e, iteration env room_id ws (inr msg) w = (inl e, w) →
    ∃ r w1,
      iteration env room_id ws (inr msg) w = (r, w1) ∧
      rooms w1 = rooms w ∧
      (∀ c, c ∉ recipients ws members →
         received_by c (out w1) = received_by c (out w)) ∧
      (∀ c, c ∈ recipients ws members →
         received_by c (out w1) = received_by c (out w) ++ [msg] ∨
         (r ≠ inr tt ∧ received_by c (out w1) = received_by c (out w)))).
  { intros e Hit. exists (inl e), w. split_and!; [done..|].
    intros c _. by right. }
  destruct Hobj as [Hobj|Hobj];
    [|by apply (Hraise AttributeError), iteration_not_object].
  destruct msg as [| | | | | |fields]; try done.
  destruct (loggable (JObj fields)) eqn:Hlog;
    [|by apply (Hraise UnicodeEncodeError), iteration_unloggable].
  clear Hraise.
  - rewrite iteration_object, broadcast_unfold by done. simpl.
    rewrite Hroom.
    set (w0 := mkWorld _ _ _).
    destruct (for_each_client_any env ws (JObj fields) members w0)
      as (k & r & w1 & -> & Hrooms & Hout & Hr).
    pose proof (NoDup_recipients ws members Hnd) as Hndr.
    assert (Hrecv : ∀ c, received_by c (out w1) =
      received_by c (out w) ++
      received_by c ((λ c, Sent c (JObj fields)) <$>
                       take k (recipients ws members))).
    { intros c. rewrite Hout. unfold w0. simpl.
      by rewrite !received_by_app, received_by_Print, app_nil_r. }
    exists r, w1. split_and!; [done | done | |].
    + intros c Hc. rewrite Hrecv, received_by_Sent_notin.
      * by rewrite app_nil_r.
      * intros Hin. apply Hc. by apply (subseteq_take k).
    + intros c Hc. rewrite Hrecv.
      destruct (decide (c ∈ take k (recipients ws members))) as [Hin|Hin].
      * left. rewrite received_by_Sent_once; [done | | done].
        apply (sublist_NoDup _ (recipients ws members));
          [done | apply sublist_take].
      * right. rewrite received_by_Sent_notin by done.
        rewrite app_nil_r. split; [|done].
        destruct Hr as [[_ ->]|(e & -> & _)]; [|done].
        by rewrite firstn_all in Hin.
Qed.

(** X6. A handler that reads [msgs] while the membership of its room does
    not change (no connection joins or leaves between its reads or during
    its broadcasts: the loop runs on the member list as it found it).
    Whatever the sends do and whatever the messages are, what each other
    member of the room has received from it is an initial segment of
    [msgs], nothing reordered or repeated and nothing missing before the
    last one received; the sender and the connections outside the room have
    received nothing from it. *)
Theorem sender_order_preserved env room_id ws msgs w members :
  rooms w !! room_id = Some members →
  NoDup members →
  ∃ r w',
    receive_loop env room_id ws (received msgs) w = (r, w') ∧
    (∀ c, c ∈ recipients ws members →
       ∃ k : nat, received_by c (out w') =
                  received_by c (out w) ++ take k msgs) ∧
    (∀ c, c ∉ recipients ws members →
       received_by c (out w') = received_by c (out w)).
Proof.
  intros Hroom Hnd. revert w Hroom.
  induction msgs as [|msg rest IH]; intros w Hroom.
  - exists (inr tt), w. split_and!; [done | | done].
    intros c _. exists 0. by rewrite app_nil_r.
  - destruct (iteration_received env room_id ws msg w members Hroom Hnd)
      as (r1 & w1 & Hit & Hrooms & Hout & Hin).
    unfold received. simpl. rewrite bind_unfold, Hit.
    destruct r1 as [e|[]].
    + exists (inl e), w1. split_and!; [done | | done].
      intros c Hc. destruct (Hin c Hc) as [->|[_ ->]].
      * by exists 1.
      * exists 0. by rewrite app_nil_r.
    + destruct (IH w1) as (r & w' & Hloop & Hin' & Hout').
      { by rewrite Hrooms. }
      exists r, w'. split_and!; [done | |].
      * intros c Hc. destruct (Hin' c Hc) as [k ->].
        destruct (Hin c Hc) as [->|[? _]]; [|done].
        exists (S k). by rewrite <- app_assoc.
      * intros c Hc. by rewrite Hout', Hout.
Qed.

Lemma sender_order_preserved_witness :
  ∃ r w',
    receive_loop (first_send_raises RuntimeError) "r1" X
      (received [chat_hi; offer_hi]) three_in_r1 = (r, w') ∧
    (∀ c, c ∈ recipients X [X; Y; Z'] →
       ∃ k : nat, received_by c (out w') =
                  received_by c (out three_in_r1)
                    ++ take k [chat_hi; offer_hi]) ∧
    (∀ c, c ∉ recipients X [X; Y; Z'] →
       received_by c (out w') = received_by c (out three_in_r1)).
Proof.
  apply (sender_order_preserved (first_send_raises RuntimeError) "r1" X
           [chat_hi; offer_hi] three_in_r1 [X; Y; Z']).
  - reflexivity.
  - compute_done.
Defined.

(** X7. A handler that reads [msgs] while the membership of its room does
    not change (no connection joins or leaves between its reads or during
    its broadcasts). When every message is an object whose log line can be
    written and no send raises, the loop keeps running and every other
    member of the room has received all the messages of the sender, each
    once, in the order they were read. *)
Theorem all_messages_delivered_in_order env room_id ws msgs w members :
  rooms w !! room_id = Some members →
  NoDup members →
  Forall (λ msg, is_object msg ∧ loggable msg = true) msgs →
  (∀ n : nat, (sends w ≤ n)%nat → env n = None) →
  ∃ w',
    receive_loop env room_id ws (received msgs) w = (inr tt, w') ∧
    rooms w' = rooms w ∧
    sends w' = sends w + length msgs * length (recipients ws members) ∧
    (∀ c, c ∈ members → c ≠ ws →
       received_by c (out w') = received_by c (out w) ++ msgs).
Proof.
  intros Hroom Hnd Hobj. revert w Hroom.
  induction Hobj as [|msg rest [Hmsg Hlog] _ IH]; intros w Hroom Henv.
  - exists w. split_and!; [done | done | simpl; lia |].
    intros c _ _. by rewrite app_nil_r.
  - destruct msg as [| | | | | |fields]; try done.
    set (w1 := mkWorld (rooms w)
      ((out w ++ (Print <$> log_lines room_id (JObj fields)
                    (default JNull (dict_get "type" fields)))) ++
       ((λ c, Sent c (JObj fields)) <$> recipients ws members))
      (sends w + length (recipients ws members))).
    assert (Hit : iteration env room_id ws (inr (JObj fields)) w
                  = (inr tt, w1)).
    { rewrite iteration_object, broadcast_unfold by done. simpl.
      rewrite Hroom.
      rewrite for_each_client_ok; [done|].
      intros i _. apply Henv. simpl. lia. }
    destruct (IH w1) as (w' & Hloop & Hrooms & Hsends & Hrecv); [done | |].
    { intros n Hn. apply Henv. simpl in Hn. lia. }
    exists w'. unfold received. simpl. rewrite bind_unfold, Hit.
    split_and!; [done | done | simpl in *; lia |].
    intros c Hc Hcw. rewrite (Hrecv c Hc Hcw). unfold w1. simpl.
    rewrite !received_by_app, received_by_Print, app_nil_r.
    rewrite received_by_Sent_once;
      [| by apply NoDup_recipients | by apply elem_of_recipients].
    by rewrite <- app_assoc.
Qed.

Lemma all_messages_delivered_in_order_witness :
  ∃ w',
    receive_loop all_sent "r1" X (received [chat_hi; offer_hi]) three_in_r1
      = (inr tt, w') ∧
    rooms w' = rooms three_in_r1 ∧
    sends w' = sends three_in_r1
               + length [chat_hi; offer_hi] * length (recipients X [X; Y; Z']) ∧
    (∀ c, c ∈ [X; Y; Z'] → c ≠ X →
       received_by c (out w') =
         received_by c (out three_in_r1) ++ [chat_hi; offer_hi]).
Proof.
  apply (all_messages_delivered_in_order all_sent "r1" X
           [chat_hi; offer_hi] three_in_r1 [X; Y; Z']).
  - reflexivity.
  - compute_done.
  - repeat constructor.
  - reflexivity.
Defined.

(** ** Rooms are kept apart *)

(** The [except] clause sends nothing. *)
Lemma try_body_received room_id ws (body : M unit) w c :
  received_by c (out (try_body room_id ws body w).2) =
  received_by c (out (body w).2).
Proof.
  unfold try_body, on_disconnect.
  destruct (body w) as [[e|[]] w1]; simpl; [|done].
  destruct e; try done.
  destruct (leave (rooms w1) room_id ws); simpl; [done|].
  rewrite received_by_app. simpl. by rewrite app_nil_r.
Qed.

(** X8. A message is never delivered outside the room of its sender: in
    every state the server can reach, a turn of the handler of a connection
    in room [room_id], whatever it reads and whatever the sends do, delivers
    nothing to a connection that is a member of another room. *)
Theorem no_delivery_outside_room env acts ws r c room_id room_c members_c :
  handlers (run env acts) !! ws = Some room_id →
  rooms (world (run env acts)) !! room_c = Some members_c →
  c ∈ members_c →
  room_c ≠ room_id →
  received_by c (out (world (step env (run env acts) (Receive ws r)))) =
  received_by c (out (world (run env acts))).
Proof.
  intros Hws Hroom_c Hc Hne. set (s := run env acts) in *.
  pose proof (system_ok_run env acts) as Hok. fold s in Hok.
  destruct (sys_member _ Hok _ _ Hws) as (members & Hroom & Hin).
  assert (Hnot : c ∉ recipients ws members).
  { intros [Hcm _]%elem_of_recipients. apply Hne.
    apply (ok_one_room _ (sys_registry _ Hok) _ _ _ _ c Hroom_c Hroom);
      done. }
  assert (Hstep : world (step env s (Receive ws r)) =
    (try_body room_id ws (iteration env room_id ws r) (world s)).2).
  { simpl. rewrite Hws.
    by destruct (try_body room_id ws (iteration env room_id ws r) (world s))
      as [[] w']. }
  rewrite Hstep, try_body_received.
  destruct r as [e|msg]; [done|].
  destruct (iteration_received env room_id ws msg (world s) members Hroom
              (ok_nodup _ (sys_registry _ Hok) _ _ Hroom))
    as (r1 & w1 & -> & _ & Hout & _).
  by apply Hout.
Qed.

Lemma no_delivery_outside_room_witness :
  let acts := [Connect "r1"; Connect "r2"; Connect "r1"] in
  received_by Y
    (out (world (step all_sent (run all_sent acts)
                   (Receive X (inr chat_hi))))) =
  received_by Y (out (world (run all_sent acts))).
Proof.
  apply (no_delivery_outside_room all_sent
           [Connect "r1"; Connect "r2"; Connect "r1"]
           X (inr chat_hi) Y "r1" "r2" [Y]).
  - vm_compute. reflexivity.
  - vm_compute. reflexivity.
  - compute_done.
  - discriminate.
Defined.

Lemma step_keeps_member env s a c room_id members :
  rooms (world s) !! room_id = Some members →
  c ∈ members →
  (∀ r, a ≠ Receive c r) →
  ∃ members', rooms (world (step env s a)) !! room_id = Some members' ∧
              c ∈ members'.
Proof.
  intros Hroom Hc Hnot. pose proof (step_rooms env s a) as Hstep.
  destruct a as [room|ws r].
  - rewrite Hstep. destruct (decide (room_id = room)) as [->|Hr].
    + rewrite join_lookup, Hroom. simpl. eexists. split; [done|].
      apply elem_of_app. by left.
    + rewrite join_lookup_ne by done. eauto.
  - assert (Hcw : c ≠ ws) by (intros ->; by apply (Hnot r)).
    destruct Hstep as [->|(room & Hws & Hlv)]; [eauto|].
    destruct (leave_frame _ _ _ _ Hlv)
      as [(l1 & l2 & Hold & _ & Hnew) Hother].
    destruct (decide (room_id = room)) as [->|Hr].
    + rewrite Hold in Hroom. injection Hroom as <-.
      assert (Hc' : c ∈ l1 ++ l2).
      { apply elem_of_app in Hc as [Hc|Hc]; apply elem_of_app; [by left|].
        apply elem_of_cons in Hc as [->|Hc]; [done | by right]. }
      rewrite Hnew. rewrite decide_False.
      * eauto.
      * intros Hnil. rewrite Hnil in Hc'. by apply elem_of_nil in Hc'.
    + rewrite Hother by done. eauto.
Qed.

(** X9. A connection is taken out of the registry by its own handler only:
    a step of the server that is not a [receive_json] outcome of the
    connection itself (another client connecting, another handler's turn,
    whatever its outcome) leaves every member in its room. And a connection
    is put into the registry by its own connect only: the turn of a handler
    adds no member to any room. *)
Theorem only_own_handler_removes env s a c room_id members :
  rooms (world s) !! room_id = Some members →
  c ∈ members →
  (∀ r, a ≠ Receive c r) →
  (∃ members', rooms (world (step env s a)) !! room_id = Some members' ∧
               c ∈ members') ∧
  (∀ ws r room members' c',
     a = Receive ws r →
     rooms (world (step env s a)) !! room = Some members' → c' ∈ members' →
     ∃ members0, rooms (world s) !! room = Some members0 ∧ c' ∈ members0).
Proof.
  intros Hroom Hc Hnot.
  split; [by apply (step_keeps_member env s a c room_id members)|].
  intros ws r room members' c' -> Hroom' Hc'.
  destruct (step_rooms env s (Receive ws r)) as [Hsame|(room0 & _ & Hlv)].
  - rewrite Hsame in Hroom'. eauto.
  - destruct (leave_frame _ _ _ _ Hlv)
      as [(l1 & l2 & Hold & _ & Hnew) Hother].
    destruct (decide (room = room0)) as [->|Hr].
    + rewrite Hnew in Hroom'. case_decide; [done|].
      injection Hroom' as <-. exists (l1 ++ ws :: l2). split; [done|].
      apply elem_of_app in Hc' as [?|?]; apply elem_of_app;
        [by left | right; by right].
    + rewrite Hother in Hroom' by done. eauto.
Qed.

Lemma only_own_handler_removes_witness :
  (∃ members',
     rooms (world (step (first_send_raises WebSocketDisconnect)
                     (run all_sent three_connect)
                     (Receive X (inr chat_hi)))) !! "r1" = Some members' ∧
     Y ∈ members') ∧
  (∀ ws r room members' c',
     Receive X (inr chat_hi) = Receive ws r →
     rooms (world (step (first_send_raises WebSocketDisconnect)
                     (run all_sent three_connect)
                     (Receive X (inr chat_hi)))) !! room = Some members' →
     c' ∈ members' →
     ∃ members0,
       rooms (world (run all_sent three_connect)) !! room = Some members0 ∧
       c' ∈ members0).
Proof.
  apply (only_own_handler_removes (first_send_raises WebSocketDisconnect)
           (run all_sent three_connect) (Receive X (inr chat_hi))
           Y "r1" [X; Y; Z']).
  - vm_compute. reflexivity.
  - compute_done.
  - intros r. discriminate.
Defined.

(** ** What can end a handler *)

(** A turn on an object whose line can be written, in a room that has an
    entry, returns, or raises what a [send_json] raised. *)
Lemma iteration_object_result env room_id ws fields w members :
  loggable (JObj fields) = true →
  rooms w !! room_id = Some members →
  ∃ w1, iteration env room_id ws (inr (JObj fields)) w = (inr tt, w1) ∨
        ∃ n e, env n = Some e ∧
          iteration env room_id ws (inr (JObj fields)) w = (inl e, w1).
Proof.
  intros Hlog Hroom. rewrite iteration_object, broadcast_unfold by done.
  simpl. rewrite Hroom. set (w0 := mkWorld _ _ _).
  destruct (first_raise env (sends w0) (length (recipients ws members)))
    as [Hok|(k & e & Hk & Hlt & He)].
  - eexists. left. by apply for_each_client_ok.
  - eexists. right. exists (sends w0 + k), e. split; [done|].
    by apply for_each_client_raise.
Qed.

(** The outcome of a turn of a suspended handler in a state that satisfies
    the invariant. *)
Lemma turn_outcome env s ws room_id r :
  system_ok s → handlers s !! ws = Some room_id →
  ∃ st w',
    try_body room_id ws (iteration env room_id ws r) (world s) = (st, w') ∧
    match st with
    | Joined | Removed => True
    | Failed e =>
        e ≠ WebSocketDisconnect ∧
        (r = inl e ∨
         (∃ data, r = inr data ∧ ¬ is_object data ∧ e = AttributeError) ∨
         (∃ data, r = inr data ∧ is_object data ∧
                  loggable data = false ∧ e = UnicodeEncodeError) ∨
         (∃ n, env n = Some e))
    end.
Proof.
  intros Hok Hws.
  destruct (system_ok_leave s ws room_id Hok Hws)
    as (l & rooms' & Hl & Hin & Hlv & _).
  assert (Hraise : ∀ e w1,
    iteration env room_id ws r (world s) = (inl e, w1) →
    (r = inl e ∨
     (∃ data, r = inr data ∧ ¬ is_object data ∧ e = AttributeError) ∨
     (∃ data, r = inr data ∧ is_object data ∧
              loggable data = false ∧ e = UnicodeEncodeError) ∨
     (∃ n, env n = Some e)) →
    ∃ st w',
      try_body room_id ws (iteration env room_id ws r) (world s) = (st, w') ∧
      match st with
      | Joined | Removed => True
      | Failed e =>
          e ≠ WebSocketDisconnect ∧
          (r = inl e ∨
           (∃ data, r = inr data ∧ ¬ is_object data ∧ e = AttributeError) ∨
           (∃ data, r = inr data ∧ is_object data ∧
                    loggable data = false ∧ e = UnicodeEncodeError) ∨
           (∃ n, env n = Some e))
      end).
  { intros e w1 Hit Hcause.
    pose proof (iteration_rooms env room_id ws r (world s)) as Hrooms.
    rewrite Hit in Hrooms. simpl in Hrooms.
    destruct (decide (e = WebSocketDisconnect)) as [->|He].
    - rewrite (try_body_disconnect _ _ _ _ _ Hit), Hrooms, Hlv.
      by eexists _, _.
    - rewrite (try_body_other _ _ _ _ _ _ Hit He). by eexists _, _. }
  destruct r as [e|data].
  - apply (Hraise e (world s)); [done | by left].
  - assert (Hobj : is_object data ∨ ¬ is_object data).
    { destruct data; simpl; tauto. }
    destruct Hobj as [Hobj|Hobj].
    + destruct data as [| | | | | |fields]; try done.
      destruct (loggable (JObj fields)) eqn:Hlog.
      * destruct (iteration_object_result env room_id ws fields (world s) l
                    Hlog Hl) as (w1 & [Hit|(n & e & He & Hit)]).
        -- rewrite (try_body_returns _ _ _ _ _ Hit). by eexists _, _.
        -- apply (Hraise e w1); [done|]. right. right. right. by exists n.
      * apply (Hraise UnicodeEncodeError (world s)).
        -- by apply iteration_unloggable.
        -- right. right. left. by exists (JObj fields).
    + apply (Hraise AttributeError (world s)).
      * by apply iteration_not_object.
      * right. left. by exists data.
Qed.

(** X10. In the server the registry accesses of a handler never raise: when
    a turn of a suspended handler ends with an exception that leaves the
    coroutine, that exception is not [WebSocketDisconnect] and it is the one
    [receive_json] raised, or the [AttributeError] of [data.get] on a value
    that is not an object, or the [UnicodeEncodeError] of [print] on a log
    line that cannot be written, or one a [send_json] raised. It is never a
    [KeyError] or [ValueError] of [rooms[room_id]] or [remove]. *)
Theorem handler_fails_from_io_only env acts ws room_id r e w' :
  handlers (run env acts) !! ws = Some room_id →
  try_body room_id ws (iteration env room_id ws r) (world (run env acts))
    = (Failed e, w') →
  e ≠ WebSocketDisconnect ∧
  (r = inl e ∨
   (∃ data, r = inr data ∧ ¬ is_object data ∧ e = AttributeError) ∨
   (∃ data, r = inr data ∧ is_object data ∧
            loggable data = false ∧ e = UnicodeEncodeError) ∨
   (∃ n, env n = Some e)).
Proof.
  intros Hws Htry.
  destruct (turn_outcome env (run env acts) ws room_id r
              (system_ok_run env acts) Hws) as (st & w1 & Htry' & Hst).
  rewrite Htry in Htry'. by injection Htry' as <- <-.
Qed.

Lemma handler_fails_from_io_only_witness :
  JSONDecodeError ≠ WebSocketDisconnect ∧
  ((inl JSONDecodeError : exn + json) = inl JSONDecodeError ∨
   (∃ data, (inl JSONDecodeError : exn + json) = inr data ∧
            ¬ is_object data ∧ JSONDecodeError = AttributeError) ∨
   (∃ data, (inl JSONDecodeError : exn + json) = inr data ∧
            is_object data ∧ loggable data = false ∧
            JSONDecodeError = UnicodeEncodeError) ∨
   (∃ n, all_sent n = Some JSONDecodeError)).
Proof.
  apply (handler_fails_from_io_only all_sent [Connect "r1"] X "r1"
           (inl JSONDecodeError) JSONDecodeError
           (world (run all_sent [Connect "r1"]))).
  - vm_compute. reflexivity.
  - reflexivity.
Defined.

(** ** Runs without errors keep the registry exact *)

Lemma exact_step env s a :
  system_ok s → benign_action a → only_disconnects env →
  (∀ r l ws, rooms (world s) !! r = Some l → ws ∈ l →
     handlers s !! ws = Some r) →
  ∀ r l ws, rooms (world (step env s a)) !! r = Some l → ws ∈ l →
    handlers (step env s a) !! ws = Some r.
Proof.
  intros Hok Hben Henv Hexact r l ws.
  destruct a as [room_id|ws0 msg].
  - simpl. intros Hl Hin.
    destruct (decide (ws = created s)) as [->|Hws].
    + rewrite lookup_insert_eq. f_equal.
      destruct (decide (r = room_id)) as [->|Hr]; [done|].
      rewrite join_lookup_ne in Hl by done.
      pose proof (sys_created_reg _ Hok _ _ _ Hl Hin). lia.
    + rewrite lookup_insert_ne by done.
      destruct (decide (r = room_id)) as [->|Hr].
      * rewrite join_lookup in Hl. injection Hl as <-.
        apply elem_of_app in Hin as [Hin|Hin].
        -- destruct (rooms (world s) !! room_id) as [l0|] eqn:Hl0;
             simpl in Hin; [eauto | by apply elem_of_nil in Hin].
        -- by apply list_elem_of_singleton in Hin.
      * rewrite join_lookup_ne in Hl by done. eauto.
  - simpl. destruct (handlers s !! ws0) as [room_id|] eqn:Hws0; [|eauto].
    destruct (turn_outcome env s ws0 room_id msg Hok Hws0)
      as (st & w' & Htry & Hst).
    destruct (try_body_rooms room_id ws0 (iteration env room_id ws0 msg)
                (world s) (iteration_rooms env room_id ws0 msg (world s)))
      as (st' & w'' & Htry' & Hrooms).
    rewrite Htry in Htry'. injection Htry' as <- <-. rewrite Htry.
    destruct st as [| |e].
    + destruct Hrooms as [[[=] _]|[_ Hsame]]. simpl. rewrite Hsame. eauto.
    + destruct Hrooms as [[_ Hlv]|[? _]]; [|done]. simpl.
      destruct (sys_member _ Hok _ _ Hws0) as (l0 & Hl0 & Hin0).
      destruct (registry_ok_leave _ _ _ _ (sys_registry _ Hok) Hl0 Hin0)
        as (rooms' & Hlv' & _ & Hgone & _ & Hback & _).
      rewrite Hlv in Hlv'. injection Hlv' as ->.
      intros Hl Hin. destruct (Hback _ _ _ Hl Hin) as (m0 & Hm0 & Hin').
      rewrite lookup_delete_ne; [eauto|].
      intros <-. apply Hgone. by exists r, l.
    + exfalso.
      destruct Hst as [He [->|[(data & -> & Hno & _)|
                                [(data & -> & _ & Hno & _)|(n & Hn)]]]].
      * simpl in Hben. done.
      * simpl in Hben. by destruct Hben.
      * simpl in Hben. destruct Hben as [_ Hlog]. congruence.
      * apply He. by apply (Henv n).
Qed.

(** X11. When [receive_json] only ever returns objects whose log line can
    be written or raises [WebSocketDisconnect], and a [send_json] that
    raises, raises [WebSocketDisconnect], no membership entry is ever left
    behind: in
    every state the server reaches, a connection is in the member list of
    a room exactly when it has a suspended handler started for that room. *)
Theorem registry_exact_without_errors env acts :
  Forall benign_action acts →
  only_disconnects env →
  ∀ ws room_id,
    handlers (run env acts) !! ws = Some room_id ↔
    ∃ members, rooms (world (run env acts)) !! room_id = Some members ∧
               ws ∈ members.
Proof.
  intros Hben Henv ws room_id. split.
  - apply (sys_member _ (system_ok_run env acts)).
  - intros (members & Hroom & Hin). revert ws room_id members Hroom Hin.
    induction acts as [|a acts IH] using rev_ind;
      intros ws room_id members.
    + unfold run. simpl. by rewrite lookup_empty.
    + apply Forall_app in Hben as [Hben Ha].
      apply Forall_inv in Ha.
      rewrite run_snoc. apply exact_step; try done.
      * apply system_ok_run.
      * intros r l c. by apply IH.
Qed.

Lemma registry_exact_without_errors_witness :
  handlers (run all_sent (three_connect ++
              [Receive Y (inl WebSocketDisconnect);
               Receive X (inr chat_hi)])) !! Z' = Some "r1" ↔
  ∃ members,
    rooms (world (run all_sent (three_connect ++
              [Receive Y (inl WebSocketDisconnect);
               Receive X (inr chat_hi)]))) !! "r1" = Some members ∧
    Z' ∈ members.
Proof.
  apply (registry_exact_without_errors all_sent
           (three_connect ++ [Receive Y (inl WebSocketDisconnect);
                              Receive X (inr chat_hi)])).
  - repeat constructor.
  - intros n e H. discriminate.
Defined.

(** ** An entry left behind *)

Lemma leaked_step env s a ws room_id :
  system_ok s →
  handlers s !! ws = None →
  (∃ l, rooms (world s) !! room_id = Some l ∧ ws ∈ l) →
  handlers (step env s a) !! ws = None ∧
  ∃ l, rooms (world (step env s a)) !! room_id = Some l ∧ ws ∈ l.
Proof.
  intros Hok Hnone (l & Hl & Hin).
  destruct a as [room|ws0 r].
  - split.
    + simpl. rewrite lookup_insert_ne; [done|].
      pose proof (sys_created_reg _ Hok _ _ _ Hl Hin). lia.
    + by apply (step_keeps_member env s _ ws room_id l).
  - destruct (decide (ws0 = ws)) as [->|Hne].
    + simpl. rewrite Hnone. eauto.
    + split.
      * simpl. destruct (handlers s !! ws0) as [room0|] eqn:Hws0; [|done].
        destruct (try_body room0 ws0 (iteration env room0 ws0 r) (world s))
          as [[] w']; simpl; [done|..]; by rewrite lookup_delete_ne.
      * apply (step_keeps_member env s _ ws room_id l Hl Hin).
        intros r' [= ? _]. done.
Qed.

(** X12. An entry left behind stays for good. When the turn of a suspended
    handler ends with an exception that leaves the coroutine (anything but
    [WebSocketDisconnect]), the connection is still in the member list of
    its room, and it is there in every later state of the server, whatever
    happens next: nothing removes it any more. *)
Theorem failed_handler_stays_registered env acts ws room_id r e w' later :
  handlers (run env acts) !! ws = Some room_id →
  try_body room_id ws (iteration env room_id ws r) (world (run env acts))
    = (Failed e, w') →
  let s := run env (acts ++ Receive ws r :: later) in
  handlers s !! ws = None ∧
  ∃ members, rooms (world s) !! room_id = Some members ∧ ws ∈ members.
Proof.
  intros Hws Htry.
  induction later as [|a later IH] using rev_ind.
  - rewrite run_snoc. simpl. rewrite Hws, Htry. simpl.
    split; [apply lookup_delete_eq|].
    destruct (try_body_rooms room_id ws (iteration env room_id ws r)
                (world (run env acts))
                (iteration_rooms env room_id ws r (world (run env acts))))
      as (st & w1 & Htry' & [[-> _]|[_ Hrooms]]);
      rewrite Htry in Htry'; [done|].
    injection Htry' as _ <-. rewrite Hrooms.
    apply (sys_member _ (system_ok_run env acts) _ _ Hws).
  - replace (acts ++ Receive ws r :: later ++ [a])
      with ((acts ++ Receive ws r :: later) ++ [a])
      by (by rewrite <- app_assoc).
    intros s. unfold s. rewrite run_snoc.
    destruct IH as [Hnone Hmem].
    apply leaked_step; [apply system_ok_run | done | done].
Qed.

Lemma failed_handler_stays_registered_witness :
  let s := run all_sent
             ([Connect "r1"; Connect "r1"] ++
              Receive X (inl JSONDecodeError) ::
              [Receive Y (inl WebSocketDisconnect); Connect "r1";
               Receive X (inl WebSocketDisconnect)]) in
  handlers s !! X = None ∧
  ∃ members, rooms (world s) !! "r1" = Some members ∧ X ∈ members.
Proof.
  apply (failed_handler_stays_registered all_sent
           [Connect "r1"; Connect "r1"] X "r1" (inl JSONDecodeError)
           JSONDecodeError (world (run all_sent [Connect "r1"; Connect "r1"]))
           [Receive Y (inl WebSocketDisconnect); Connect "r1";
            Receive X (inl WebSocketDisconnect)]).
  - vm_compute. reflexivity.
  - reflexivity.
Defined.

(** ** The number of sends *)

Lemma recipients_id ws l : ws ∉ l → recipients ws l = l.
Proof.
  induction l as [|c l IH]; [done|].
  rewrite not_elem_of_cons. intros [Hne Hnot]. unfold recipients in *.
  rewrite filter_cons, decide_True by congruence. by rewrite IH.
Qed.

Lemma length_recipients ws members :
  NoDup members → ws ∈ members →
  S (length (recipients ws members)) = length members.
Proof.
  induction members as [|c l IH]; intros Hnd Hin.
  - by apply elem_of_nil in Hin.
  - apply NoDup_cons in Hnd as [Hc Hnd]. unfold recipients in *.
    rewrite filter_cons. case_decide as Hcw.
    + apply elem_of_cons in Hin as [->|Hin]; [done|].
      simpl. by rewrite IH.
    + assert (c = ws) as -> by (destruct (decide (c = ws)); tauto).
      pose proof (recipients_id ws l Hc) as Hid. unfold recipients in Hid.
      simpl. by rewrite Hid.
Qed.

(** X13. A broadcast during which no other connection joins or leaves the
    room, in a room of [n] members, the sender among them: it calls
    [send_json] exactly [n - 1] times when no call raises, one delivery per
    other member. *)
Theorem broadcast_send_count env room_id ws data w members :
  rooms w !! room_id = Some members →
  NoDup members →
  ws ∈ members →
  (∀ i, i < length members - 1 → env (sends w + i) = None) →
  ∃ w', broadcast env room_id ws data w = (inr tt, w') ∧
        sends w' = sends w + (length members - 1) ∧
        length (deliveries (out w')) =
          length (deliveries (out w)) + (length members - 1).
Proof.
  intros Hroom Hnd Hin Henv.
  pose proof (length_recipients ws members Hnd Hin) as Hlen.
  rewrite broadcast_unfold, Hroom.
  rewrite for_each_client_ok.
  - eexists. split; [done|]. simpl. split; [lia|].
    rewrite deliveries_app, deliveries_Sent, length_app, length_fmap. lia.
  - intros i Hi. apply Henv. lia.
Qed.

Lemma broadcast_send_count_witness :
  ∃ w', broadcast all_sent "r1" Y chat_hi three_in_r1 = (inr tt, w') ∧
        sends w' = sends three_in_r1 + (length [X; Y; Z'] - 1) ∧
        length (deliveries (out w')) =
          length (deliveries (out three_in_r1)) + (length [X; Y; Z'] - 1).
Proof.
  apply (broadcast_send_count all_sent "r1" Y chat_hi three_in_r1
           [X; Y; Z']).
  - reflexivity.
  - compute_done.
  - compute_done.
  - reflexivity.
Defined.

(** ** What a turn prints *)



